(** * EasyBuild easyconfig format conversions

    A shallow embedding of [easybuild/framework/easyconfig/format/convert.py]
    (classes [Patch], [Patches] and [Dependency]) together with the parts of
    [easybuild.tools.convert] they inherit from, and the properties of the
    string <-> structured-value conversion contract; and of
    [easybuild/scripts/findPythonDeps.py] (the functions [extract_pkg_name]
    and [find_deps] and the loop that builds the install order), over the
    decoded dependency tree.

    Conventions of the embedding:
    - Python [str] is [string], a character being a code point below 256
      (ASCII and Latin-1); text with other characters has no counterpart
      in the embedding.
    - A raised exception is the left injection of [result]; only the class of
      the exception is recorded, not its message.
    - A Python [dict] is an association list in insertion order with unique
      keys; [==] on dicts is [PyDict.eq] (same keys, same values, any order).
    - Dynamically typed dict values are the tagged union [Py.value]. *)

From Stdlib Require Import String Ascii List ZArith Lia Bool.
From Stdlib Require Import Decimal DecimalString DecimalZ DecimalN DecimalPos.
Import ListNotations.

Local Open Scope string_scope.
Local Open Scope list_scope.

(** ** Exceptions and the error monad *)

Inductive exn : Type :=
| ValueError        (* Python built-in, raised by [int] and by [Dependency] *)
| KeyError          (* Python built-in, raised by [d[k]] on a missing key *)
| ParseError        (* named by the specification of [DictOfStrings] *)
| ValidationError.  (* named by the specification of [DictOfStrings] *)

Definition result (A : Type) : Type := (exn + A)%type.

Definition Ok {A : Type} (a : A) : result A := inr a.
Definition Raise {A : Type} (e : exn) : result A := inl e.

Definition bind {A B : Type} (m : result A) (k : A -> result B) : result B :=
  match m with
  | inl e => inl e
  | inr a => k a
  end.

Notation "x <- m ;; k" := (bind m (fun x => k))
  (at level 61, m at next level, right associativity).

Definition is_ok {A : Type} (m : result A) : bool :=
  match m with inr _ => true | inl _ => false end.

(** ** Python strings and built-ins *)

Module Py.

(** [c in s] for a one-character [c]. *)
Fixpoint contains (c : ascii) (s : string) : bool :=
  match s with
  | EmptyString => false
  | String a s' => Ascii.eqb a c || contains c s'
  end.

(** [s * n]: [n] copies of [s]. *)
Fixpoint mul (s : string) (n : nat) : string :=
  match n with
  | O => EmptyString
  | S n' => s ++ mul s n'
  end.

(** [sep.join(l)] for a one-character separator. *)
Fixpoint join (sep : ascii) (l : list string) : string :=
  match l with
  | [] => EmptyString
  | [x] => x
  | x :: xs => x ++ String sep (join sep xs)
  end.

(** [s.split(sep)]: one more segment than there are separators; the empty
    string has exactly one (empty) segment. *)
Fixpoint split (sep : ascii) (s : string) : list string :=
  match s with
  | EmptyString => [EmptyString]
  | String a s' =>
      if Ascii.eqb a sep then EmptyString :: split sep s'
      else match split sep s' with
           | [] => [String a EmptyString]
           | x :: xs => String a x :: xs
           end
  end.

(** [s.split(sep, 1)] when [sep] occurs: the text before and after the
    first separator; [None] when [sep] does not occur. *)
Fixpoint split_first (sep : ascii) (s : string) : option (string * string) :=
  match s with
  | EmptyString => None
  | String a s' =>
      if Ascii.eqb a sep then Some (EmptyString, s')
      else match split_first sep s' with
           | Some (k, v) => Some (String a k, v)
           | None => None
           end
  end.

(** The white space [int] skips around a literal: TAB, LF, VT, FF, CR and
    space, and the two white space characters above ASCII, NEL (133) and
    NBSP (160).  The separators FS, GS, RS and US (28 to 31), which
    [str.isspace] accepts, are no white space for [int]. *)
Definition isspace (c : ascii) : bool :=
  let n := nat_of_ascii c in
  ((9 <=? n) && (n <=? 13) || (n =? 32) || (n =? 133) || (n =? 160))%nat.

(** The decimal digits [int] reads; below 256 these are [0] to [9]. *)
Definition isdigit (c : ascii) : bool :=
  let n := nat_of_ascii c in ((48 <=? n) && (n <=? 57))%nat.

Definition digit_value (c : ascii) : Z := Z.of_nat (nat_of_ascii c) - 48.

Fixpoint lstrip (s : string) : string :=
  match s with
  | EmptyString => EmptyString
  | String a s' => if isspace a then lstrip s' else s
  end.

Fixpoint rev (s : string) : string :=
  match s with
  | EmptyString => EmptyString
  | String a s' => rev s' ++ String a EmptyString
  end.

Definition rstrip (s : string) : string := rev (lstrip (rev s)).
Definition strip (s : string) : string := rstrip (lstrip s).

(** The digit part of an integer literal: decimal digits, optionally
    grouped by single underscores. [after_digit] tells whether the previous
    character was a digit; the literal must start and end with a digit. *)
Fixpoint digits (acc : Z) (after_digit : bool) (s : string) : option Z :=
  match s with
  | EmptyString => if after_digit then Some acc else None
  | String a s' =>
      if isdigit a then digits (acc * 10 + digit_value a) true s'
      else if Ascii.eqb a "_" then
             if after_digit then digits acc false s' else None
           else None
  end.

(** The value of a base 10 integer literal: surrounding white space is
    dropped, one sign is allowed, then come the digits.  [None] when the
    text is no literal. *)
Definition read_int (s : string) : option Z :=
  match strip s with
  | String "+" r => digits 0 false r
  | String "-" r => option_map Z.opp (digits 0 false r)
  | r => digits 0 false r
  end.

(** The number of digits of a text, underscores, sign and white space not
    counted. *)
Fixpoint digit_count (s : string) : nat :=
  match s with
  | EmptyString => O
  | String a s' => if isdigit a then S (digit_count s') else digit_count s'
  end.

(** [sys.int_max_str_digits], the interpreter's limit on the digits of a
    text that [int] converts, at its default. *)
Definition int_max_str_digits : nat := 4300.

(** [int(s)] for a string [s] (base 10).  [None] stands for the
    [ValueError] Python raises: when the text is no literal, and when it
    has more digits than the interpreter's limit. *)
Definition int_of_str (s : string) : option Z :=
  if (digit_count s <=? int_max_str_digits)%nat then read_int s else None.

(** [str(n)] for an integer [n]: decimal digits, ["-"] in front of a
    negative number, no leading zero.  The interpreter prints no integer
    with more digits than [int_max_str_digits]; the integers [int] returns
    have no more digits than the text they were read from, so they stay
    within the limit. *)
Definition str_of_int (n : Z) : string :=
  NilZero.string_of_int (Z.to_int n).

(** Values stored in the dicts of [Patch]: strings, and integers after
    coercion. *)
Inductive value : Type :=
| Str (s : string)
| Int (n : Z).

(** [int(v)]. *)
Definition int (v : value) : result value :=
  match v with
  | Int n => Ok (Int n)
  | Str s => match int_of_str s with
             | Some n => Ok (Int n)
             | None => Raise ValueError
             end
  end.

(** [str(v)]. *)
Definition str (v : value) : string :=
  match v with
  | Str s => s
  | Int n => str_of_int n
  end.

End Py.

(** ** Python dicts *)

Module PyDict.
Section Dict.
Context {V : Type}.

Definition dict : Type := list (string * V).

(** [d.get(k)] *)
Fixpoint get (k : string) (d : dict) : option V :=
  match d with
  | [] => None
  | (k', v) :: d' => if String.eqb k' k then Some v else get k d'
  end.

(** [k in d] *)
Definition mem (k : string) (d : dict) : bool :=
  match get k d with Some _ => true | None => false end.

(** [d[k]] *)
Definition getitem (k : string) (d : dict) : result V :=
  match get k d with Some v => Ok v | None => Raise KeyError end.

(** [d[k] = v]: an existing key keeps its position. *)
Fixpoint set (k : string) (v : V) (d : dict) : dict :=
  match d with
  | [] => [(k, v)]
  | (k', v') :: d' =>
      if String.eqb k' k then (k, v) :: d' else (k', v') :: set k v d'
  end.

Definition keys (d : dict) : list string := map fst d.

(** [d1 == d2] *)
Definition eq (d1 d2 : dict) : Prop := forall k, get k d1 = get k d2.

End Dict.
Arguments dict V : clear implicits.
End PyDict.

Abbreviation dict := PyDict.dict.

Definition in_list (k : string) (l : list string) : bool :=
  existsb (String.eqb k) l.

(** ** [easybuild.tools.convert] *)

Module Convert.

(** Modelled from the spec: [Convert._split_string] of
    [easybuild.tools.convert], the shared splitting helper, which is not
    among the sources.  The specification has it split a string on a given
    separator; the grammars it is used for define no escaping syntax, so
    every occurrence of the separator delimits a field. *)
Definition _split_string (txt : string) (sep : ascii) : list string :=
  Py.split sep txt.

End Convert.

Module DictOfStrings.

Definition SEPARATOR_DICT : ascii := ";".
Definition SEPARATOR_KEY_VALUE : ascii := ":".

(** The class attributes a subtype declares. *)
Record config : Type := {
  ALLOWED_KEYS : list string;
  KEYLESS_ENTRIES : list string
}.

(** Modelled from the spec: the allowed-key set of a subtype.  The
    specification makes the keyless entries a subset of the allowed-key
    set and lists the allowed keys of [Patch] as [level], [dest] and the
    keyless [filename]: the set is the declared [KEYLESS_ENTRIES] together
    with the declared [ALLOWED_KEYS]. *)
Definition allowed_key_set (c : config) : list string :=
  KEYLESS_ENTRIES c ++ ALLOWED_KEYS c.

(** Step 2: the leading segments without [":"], at most one per declared
    keyless entry, are assigned to the keyless keys in declared order.
    Returns the assignments and the remaining segments. *)
Fixpoint positional (keyless : list string) (segs : list string)
  : list (string * string) * list string :=
  match keyless, segs with
  | k :: keyless', s :: segs' =>
      if Py.contains SEPARATOR_KEY_VALUE s then ([], segs)
      else let '(assigned, rest) := positional keyless' segs' in
           ((k, s) :: assigned, rest)
  | _, _ => ([], segs)
  end.

(** Step 3: every remaining segment is split on its first [":"]. *)
Fixpoint explicit (segs : list string) : result (list (string * string)) :=
  match segs with
  | [] => Ok []
  | s :: segs' =>
      match Py.split_first SEPARATOR_KEY_VALUE s with
      | None => Raise ParseError
      | Some kv => kvs <- explicit segs' ;; Ok (kv :: kvs)
      end
  end.

(** Step 4: every key is allowed, and no keyless key that was assigned
    positionally is assigned again in explicit form. *)
Definition validate (c : config) (assigned keyed : list (string * string))
  : result unit :=
  if forallb (fun kv => in_list (fst kv) (allowed_key_set c)) keyed
     && forallb (fun kv => negb (in_list (fst kv) (map fst assigned))) keyed
  then Ok tt
  else Raise ValidationError.

(** Step 5: the mapping, filled in segment order. *)
Definition build (kvs : list (string * string)) : dict Py.value :=
  fold_left (fun d kv => PyDict.set (fst kv) (Py.Str (snd kv)) d) kvs [].

(** Modelled from the spec: [DictOfStrings._from_string] of
    [easybuild.tools.convert], which is not among the sources; the five
    steps of the specification's algorithm, in their order. *)
Definition _from_string (c : config) (txt : string) : result (dict Py.value) :=
  let segs := Convert._split_string txt SEPARATOR_DICT in
  let '(assigned, rest) := positional (KEYLESS_ENTRIES c) segs in
  keyed <- explicit rest ;;
  _ <- validate c assigned keyed ;;
  Ok (build (assigned ++ keyed)).

(** The values of the keyless entries that are present, in declared
    order. *)
Definition keyless_part (c : config) (self : dict Py.value) : list string :=
  flat_map (fun k => match PyDict.get k self with
                     | Some v => [Py.str v]
                     | None => []
                     end) (KEYLESS_ENTRIES c).

(** The other entries as [key:value], in the order of the mapping. *)
Definition keyed_part (c : config) (self : dict Py.value) : list string :=
  map (fun kv => (fst kv ++ String SEPARATOR_KEY_VALUE (Py.str (snd kv)))%string)
      (filter (fun kv => negb (in_list (fst kv) (KEYLESS_ENTRIES c))) self).

(** Modelled from the spec: [DictOfStrings.__str__] of
    [easybuild.tools.convert], which is not among the sources: keyless
    entries first (value only), then the remaining keys as [key:value],
    joined by [";"]. *)
Definition __str__ (c : config) (self : dict Py.value) : string :=
  Py.join SEPARATOR_DICT (keyless_part c self ++ keyed_part c self).

End DictOfStrings.

Module ListOfStrings.

Definition SEPARATOR_LIST : ascii := ",".

(** Modelled from the spec: [ListOfStrings._from_string] of
    [easybuild.tools.convert], which is not among the sources: the
    segments between [","], in order. *)
Definition _from_string (txt : string) : list string :=
  Convert._split_string txt SEPARATOR_LIST.

(** Modelled from the spec: [ListOfStrings.__str__] of
    [easybuild.tools.convert], which is not among the sources: the string
    forms of the elements joined by [","]. *)
Definition __str__ {A : Type} (str : A -> string) (self : list A) : string :=
  Py.join SEPARATOR_LIST (map str self).

End ListOfStrings.

(** ** [easybuild.framework.easyconfig.format.convert] *)

Module Patch.

Definition ALLOWED_KEYS : list string := ["level"; "dest"].
Definition KEYLESS_ENTRIES : list string := ["filename"].

Definition config : DictOfStrings.config :=
  {| DictOfStrings.ALLOWED_KEYS := ALLOWED_KEYS;
     DictOfStrings.KEYLESS_ENTRIES := KEYLESS_ENTRIES |}.

Section FromString.
(** The inherited parser the method calls first. *)
Variable base : string -> result (dict Py.value).

Definition _from_string_over (txt : string) : result (dict Py.value) :=
  res <- base txt ;;
  if PyDict.mem "level" res then
    old <- PyDict.getitem "level" res ;;
    new <- Py.int old ;;
    Ok (PyDict.set "level" new res)
  else Ok res.
End FromString.

Definition _from_string : string -> result (dict Py.value) :=
  _from_string_over (DictOfStrings._from_string config).

Definition __str__ : dict Py.value -> string :=
  DictOfStrings.__str__ config.

(** Modelled from the spec: construction [Patch(x)] from a raw string, by
    [Convert.__init__] of [easybuild.tools.convert], which is not among
    the sources: the value is the subtype's parse of the string. *)
Definition new (x : string) : result (dict Py.value) := _from_string x.

End Patch.

Module Patches.

(** The outcome of a comprehension together with the strings that were
    handed to the element constructor, in the order of the calls. *)
Definition traced (A : Type) : Type := (list string * result A)%type.

Section Comprehension.
Context {A : Type}.
Variable construct : string -> result A.

(** [[construct(x) for x in res]]: left to right; the first exception
    ends the comprehension. *)
Fixpoint comprehension (res : list string) : traced (list A) :=
  match res with
  | [] => ([], Ok [])
  | x :: res' =>
      match construct x with
      | inl e => ([x], Raise e)
      | inr p =>
          let '(calls, r) := comprehension res' in
          (x :: calls, ps <- r ;; Ok (p :: ps))
      end
  end.
End Comprehension.

Definition _from_string_traced (txt : string) : traced (list (dict Py.value)) :=
  let res := ListOfStrings._from_string txt in
  comprehension Patch.new res.

Definition _from_string (txt : string) : result (list (dict Py.value)) :=
  snd (_from_string_traced txt).

Definition __str__ : list (dict Py.value) -> string :=
  ListOfStrings.__str__ Patch.__str__.

End Patches.

Module Dependency.

Definition SEPARATOR_DEP : ascii := ";".

Section External.
(** The version operators of [easyconfig.format.version] are external
    to this module: their values, constructors from a string and string
    forms are parameters. *)
Variables VersionOperatorT ToolchainVersionOperatorT : Type.
Variable VersionOperator : string -> result VersionOperatorT.
Variable ToolchainVersionOperator : string -> result ToolchainVersionOperatorT.
Variable str_versop : VersionOperatorT -> string.
Variable str_tc_versop : ToolchainVersionOperatorT -> string.

Inductive value : Type :=
| VersOp (v : VersionOperatorT)
| TcVersOp (t : ToolchainVersionOperatorT).

(** [str(v)] *)
Definition str (v : value) : string :=
  match v with
  | VersOp v => str_versop v
  | TcVersOp t => str_tc_versop t
  end.

Definition _from_string (txt : string) : result (dict value) :=
  let res : dict value := [] in
  let items := Convert._split_string txt SEPARATOR_DEP in
  if (length items <? 1)%nat || (2 <? length items)%nat then
    Raise ValueError
  else
    versop <- VersionOperator (nth 0 items "") ;;
    let res := PyDict.set "versop" (VersOp versop) res in
    if (1 <? length items)%nat then
      tc_versop <- ToolchainVersionOperator (nth 1 items "") ;;
      Ok (PyDict.set "tc_versop" (TcVersOp tc_versop) res)
    else Ok res.

Definition __str__ (self : dict value) : result string :=
  versop <- PyDict.getitem "versop" self ;;
  let tmp := [str versop] in
  tmp <- (if PyDict.mem "tc_versop" self then
            tc_versop <- PyDict.getitem "tc_versop" self ;;
            Ok (tmp ++ [str tc_versop])
          else Ok tmp) ;;
  Ok (Py.join SEPARATOR_DEP tmp).

End External.

Arguments VersOp {VersionOperatorT ToolchainVersionOperatorT} v.
Arguments TcVersOp {VersionOperatorT ToolchainVersionOperatorT} t.

End Dependency.

(** ** [easybuild/scripts/findPythonDeps.py] *)

From Stdlib Require Import Permutation Sorted Relations.
From Stdlib Require Mergesort Orders.

Module FindPythonDeps.

(** The exceptions of the script.  [RuntimeError] carries its message;
    [RecursionError] is what the interpreter raises when calls nest deeper
    than it allows (itself a [RuntimeError] for a handler). *)
Inductive error : Type :=
| RuntimeError (msg : string)
| RecursionError.

(** The decoded output of [pipdeptree -j]: a list of entries, each with the
    installed package and the packages it depends on. *)
Record package_info : Type := {
  package_name : string;
  key : string;
  installed_version : string
}.

(** An element of [entry['dependencies']]; only its ['package_name'] is
    read. *)
Record dependency : Type := {
  dep_package_name : string
}.

Record entry : Type := {
  package : package_info;
  dependencies : list dependency
}.

(** A package as the script reports it: [(package_name, installed_version)]. *)
Definition pkg : Type := (string * string)%type.

Definition pkg_eqb (a b : pkg) : bool :=
  String.eqb (fst a) (fst b) && String.eqb (snd a) (snd b).

(** [x in l] for a list or set of packages. *)
Definition pkg_in (x : pkg) (l : list pkg) : bool := existsb (pkg_eqb x) l.

(** [re.split('<|>|=|~', s, 1)[0]]: the text before the first of the four
    characters, the whole text when none occurs. *)
Definition is_spec_operator (c : ascii) : bool :=
  Ascii.eqb c "<" || Ascii.eqb c ">" || Ascii.eqb c "=" || Ascii.eqb c "~".

Fixpoint before_first (stop : ascii -> bool) (s : string) : string :=
  match s with
  | EmptyString => EmptyString
  | String a s' => if stop a then EmptyString else String a (before_first stop s')
  end.

Section Script.
(** [args.package], the package spec given on the command line. *)
Variable args_package : string.
(** [{mod.project_name for mod in pkg_resources.working_set}] *)
Variable installed_modules : list string.

(** The function splits the global [args.package], not its parameter. *)
Definition extract_pkg_name (package_spec : string) : string :=
  before_first is_spec_operator args_package.

(** [pkg in (entry['package']['package_name'], entry['package']['key'])] *)
Definition matches (name : string) (e : entry) : bool :=
  String.eqb name (package_name (package e)) || String.eqb name (key (package e)).

Definition matching_entries (name : string) (dep_tree : list entry) : list entry :=
  filter (matches name) dep_tree.

Definition not_found_msg (name : string) : string :=
  "Found no installed package for '" ++ name ++ "'".

Definition multiple_msg (name : string) : string :=
  "Found multiple installed packages for '" ++ name ++ "'".

Definition reported (e : entry) : pkg :=
  (package_name (package e), installed_version (package e)).

(** [(dep['package_name'] for dep in entry['dependencies'])] *)
Definition dependency_names (e : entry) : list string :=
  map dep_package_name (dependencies e).

Section Loop.
(** The recursive call [find_deps(deps, dep_tree)]. *)
Variable recurse : list string -> error + list pkg.
Variable dep_tree : list entry.

(** The [for pkg in pkgs] loop with its accumulator [res]. *)
Fixpoint find_deps_loop (pkgs : list string) (res : list pkg) : error + list pkg :=
  match pkgs with
  | [] => inr res
  | name :: pkgs' =>
      match matching_entries name dep_tree with
      | [] => inl (RuntimeError (not_found_msg name))
      | [e] =>
          let res := res ++ [reported e] in
          match recurse (dependency_names e) with
          | inl err => inl err
          | inr sub => find_deps_loop pkgs' (res ++ sub)
          end
      | _ :: _ :: _ => inl (RuntimeError (multiple_msg name))
      end
  end.
End Loop.

(** [find_deps(pkgs, dep_tree)]; [depth] bounds how deep the calls may nest
    before the interpreter raises [RecursionError] (the interpreter's own
    limit and the frames of comprehensions are not modelled). *)
Fixpoint find_deps (depth : nat) (pkgs : list string) (dep_tree : list entry)
  : error + list pkg :=
  match depth with
  | O => inl RecursionError
  | S depth' =>
      find_deps_loop (fun deps => find_deps depth' deps dep_tree) dep_tree pkgs []
  end.

(** The loop over [reversed(deps)] with its [res] and [handled]. *)
Fixpoint install_loop (deps : list pkg) (res handled : list pkg) : list pkg :=
  match deps with
  | [] => res
  | dep :: deps' =>
      if negb (pkg_in dep handled) then
        let handled := dep :: handled in
        if in_list (fst dep) installed_modules then install_loop deps' res handled
        else install_loop deps' (res ++ [dep]) handled
      else install_loop deps' res handled
  end.

Definition install_order (deps : list pkg) : list pkg :=
  install_loop (List.rev deps) [] [].
End Script.

(** Tuples of strings in Python's order: by the first component, then by
    the second. *)
Module PkgOrder <: Orders.TotalLeBool.
Definition t : Type := pkg.
Definition leb (a b : pkg) : bool :=
  match String.compare (fst a) (fst b) with
  | Lt => true
  | Eq => String.leb (snd a) (snd b)
  | Gt => false
  end.
Lemma leb_total (a b : pkg) : leb a b = true \/ leb b a = true.
Proof.
  unfold leb. rewrite (String.compare_antisym (fst a) (fst b)).
  destruct (String.compare (fst b) (fst a)); simpl; auto.
  apply String.leb_total.
Qed.
End PkgOrder.

Module PkgSort := Mergesort.Sort PkgOrder.

(** [sorted(res)] *)
Definition sorted (res : list pkg) : list pkg := PkgSort.sort res.

(** The two lists the script prints, from the decoded dependency tree:
    the dependencies in (likely) install order and the same sorted. *)
Definition report (depth : nat) (args_package : string)
    (installed_modules : list string) (dep_tree : list entry)
  : error + (list pkg * list pkg) :=
  match find_deps depth [extract_pkg_name args_package args_package] dep_tree with
  | inl err => inl err
  | inr deps =>
      let res := install_order installed_modules deps in
      inr (res, sorted res)
  end.

(** *** Vocabulary of the statements about the script *)

(** [resolves dep_tree pkgs res]: what a call of [find_deps] that returns
    has to return, read as a relation: each name has exactly one matching
    entry, reported before the resolution of its dependencies. *)
Inductive resolves (dep_tree : list entry) : list string -> list pkg -> Prop :=
| resolves_nil : resolves dep_tree [] []
| resolves_cons name pkgs e sub rest :
    matching_entries name dep_tree = [e] ->
    resolves dep_tree (dependency_names e) sub ->
    resolves dep_tree pkgs rest ->
    resolves dep_tree (name :: pkgs) (reported e :: sub ++ rest).

(** An entry matching the name [p] lists [q] among its dependencies. *)
Definition depends_on (dep_tree : list entry) (p q : string) : Prop :=
  exists e, In e dep_tree /\ matches p e = true /\ In q (dependency_names e).

(** The names a resolution of [pkgs] looks up: the names of [pkgs] and,
    transitively, the dependencies of the entries that match them. *)
Definition queried (dep_tree : list entry) (pkgs : list string) (name : string) : Prop :=
  exists root, In root pkgs /\ clos_refl_trans string (depends_on dep_tree) root name.

(** The packages of [deps] that are not in [handled], each at its first
    occurrence. *)
Fixpoint first_occurrences (handled : list pkg) (deps : list pkg) : list pkg :=
  match deps with
  | [] => []
  | dep :: deps' =>
      if pkg_in dep handled then first_occurrences handled deps'
      else dep :: first_occurrences (dep :: handled) deps'
  end.

(** A small dependency tree for concrete runs. *)
Definition entry_of (name key version : string) (deps : list string) : entry :=
  {| package := {| package_name := name; key := key; installed_version := version |};
     dependencies := map (fun d => {| dep_package_name := d |}) deps |}.

Definition sample_tree : list entry :=
  [entry_of "TensorFlow" "tensorflow" "2.3.4" ["numpy"; "six"; "Keras"];
   entry_of "numpy" "numpy" "1.18" [];
   entry_of "six" "six" "1.15" [];
   entry_of "Keras" "keras" "2.4" ["numpy"; "six"]].

Definition cyclic_tree : list entry :=
  [entry_of "a" "a" "1" ["b"]; entry_of "b" "b" "1" ["a"]].

(** A tree where a dependency is not installed. *)
Definition broken_tree : list entry :=
  [entry_of "a" "a" "1" ["b"]].

(** What [find_deps] returns for [tensorflow] in [sample_tree]. *)
Definition sample_deps : list pkg :=
  [("TensorFlow", "2.3.4"); ("numpy", "1.18"); ("six", "1.15");
   ("Keras", "2.4"); ("numpy", "1.18"); ("six", "1.15")].

(** The length of the longest chain of dependencies below a name of
    [sample_tree]. *)
Definition sample_rank (name : string) : nat :=
  if String.eqb name "TensorFlow" || String.eqb name "tensorflow" then 2
  else if String.eqb name "Keras" || String.eqb name "keras" then 1
  else 0.

End FindPythonDeps.

(** ** Vocabulary of the statements *)

(** Every character of [s] satisfies [p]. *)
Fixpoint all_chars (p : ascii -> bool) (s : string) : bool :=
  match s with
  | EmptyString => true
  | String a s' => p a && all_chars p s'
  end.

(** The number a sequence of decimal digits denotes, most significant digit
    first, continuing from [acc]. *)
Fixpoint uint_value (acc : Z) (u : Decimal.uint) : Z :=
  match u with
  | Nil => acc
  | D0 u => uint_value (acc * 10 + 0) u
  | D1 u => uint_value (acc * 10 + 1) u
  | D2 u => uint_value (acc * 10 + 2) u
  | D3 u => uint_value (acc * 10 + 3) u
  | D4 u => uint_value (acc * 10 + 4) u
  | D5 u => uint_value (acc * 10 + 5) u
  | D6 u => uint_value (acc * 10 + 6) u
  | D7 u => uint_value (acc * 10 + 7) u
  | D8 u => uint_value (acc * 10 + 8) u
  | D9 u => uint_value (acc * 10 + 9) u
  end.

(** [s] is a decimal numeral that denotes [n]: a non-empty sequence of the
    digits [0] to [9], read by the standard library's decimal reader. *)
Definition decimal_numeral (s : string) (n : Z) : Prop :=
  exists u, NilEmpty.uint_of_string s = Some u /\ u <> Nil /\ n = Z.of_uint u.

(** Decimal digits, optionally grouped by single underscores: the text
    starts and ends with a digit and no two underscores are adjacent. *)
Inductive digit_groups : string -> Prop :=
| groups_last d :
    Py.isdigit d = true -> digit_groups (String d "")
| groups_digit d s :
    Py.isdigit d = true -> digit_groups s -> digit_groups (String d s)
| groups_underscore d s :
    Py.isdigit d = true -> digit_groups s -> digit_groups (String d (String "_" s)).

(** The syntax of an integer literal in base 10: white space, an optional
    sign, grouped digits, white space. *)
Definition int_syntax (s : string) : Prop :=
  exists lead sign body trail,
    s = (lead ++ sign ++ body ++ trail)%string /\
    all_chars Py.isspace lead = true /\
    all_chars Py.isspace trail = true /\
    (sign = "" \/ sign = "+" \/ sign = "-") /\
    digit_groups body.

(** The texts Python's [int] accepts in base 10: integer literals with no
    more digits than the interpreter's limit. *)
Definition int_literal (s : string) : Prop :=
  int_syntax s /\ (Py.digit_count s <= Py.int_max_str_digits)%nat.

(** A decimal numeral with one digit more than [int] converts. *)
Definition long_numeral : string := Py.mul "1" (S Py.int_max_str_digits).

(** The segment [s] is in [key:value] form. *)
Definition has_colon (s : string) : bool :=
  Py.contains DictOfStrings.SEPARATOR_KEY_VALUE s.

(** An entry of a parsed [Patch]: ['level'] holds an integer whose printed
    form is within the limit on the digits [int] converts, ['filename']
    and ['dest'] hold strings without [";"] and without the character
    [c]. *)
Definition patch_entry (c : ascii) (kv : string * Py.value) : Prop :=
  match snd kv with
  | Py.Str s =>
      (fst kv = "filename" \/ fst kv = "dest") /\
      Py.contains ";" s = false /\ Py.contains c s = false
  | Py.Int n =>
      fst kv = "level" /\
      (Py.digit_count (Py.str_of_int n) <= Py.int_max_str_digits)%nat
  end.

(** The shape of the values [Patch._from_string] returns. *)
Record patch_value (c : ascii) (x : dict Py.value) : Prop := {
  patch_keys_unique : NoDup (PyDict.keys x);
  patch_not_empty : x <> [];
  patch_entries : Forall (patch_entry c) x
}.

(** A filename that can be written positionally: it has no [":"]. *)
Definition plain_filename (x : dict Py.value) : Prop :=
  forall f, PyDict.get "filename" x = Some (Py.Str f) -> Py.contains ":" f = false.

(** The ['level'] segment of [txt] carries the value [v]: a [";"]-separated
    segment reads [level:v] and no later segment has the key ['level']. *)
Definition level_segment (txt v : string) : Prop :=
  exists pre seg post,
    Py.split ";" txt = pre ++ seg :: post /\
    Py.split_first ":" seg = Some ("level", v) /\
    Forall (fun s => forall v', Py.split_first ":" s <> Some ("level", v')) post.

(** No segment of [txt] has the key ['level']. *)
Definition no_level_segment (txt : string) : Prop :=
  Forall (fun s => forall v, Py.split_first ":" s <> Some ("level", v))
         (Py.split ";" txt).

(** A toy version-operator parser for concrete runs: it accepts every
    string and keeps it as the operator. *)
Definition accept_all (s : string) : result string := Ok s.

(** * Properties *)

(** ** Dicts *)

Section DictFacts.
Context {V : Type}.
Implicit Types (d : dict V) (k : string) (v : V).

Lemma get_set_same d k v : PyDict.get k (PyDict.set k v d) = Some v.
Proof.
  induction d as [|[k' v'] d IH]; simpl.
  - now rewrite String.eqb_refl.
  - destruct (String.eqb k' k) eqn:E; simpl.
    + now rewrite String.eqb_refl.
    + now rewrite E.
Qed.

Lemma get_set_other d k k' v :
  k' <> k -> PyDict.get k' (PyDict.set k v d) = PyDict.get k' d.
Proof.
  intros Hne. induction d as [|[k0 v0] d IH]; simpl.
  - destruct (String.eqb k k') eqn:E; [apply String.eqb_eq in E; congruence | reflexivity].
  - destruct (String.eqb k0 k) eqn:E; simpl.
    + apply String.eqb_eq in E; subst k0.
      destruct (String.eqb k k') eqn:E'; [apply String.eqb_eq in E'; congruence | reflexivity].
    + now rewrite IH.
Qed.

Lemma keys_set_mem d k v :
  PyDict.mem k d = true -> PyDict.keys (PyDict.set k v d) = PyDict.keys d.
Proof.
  unfold PyDict.mem, PyDict.keys.
  induction d as [|[k0 v0] d IH]; simpl; [discriminate|].
  destruct (String.eqb k0 k) eqn:E; simpl; intros H.
  - apply String.eqb_eq in E. now subst.
  - now rewrite IH.
Qed.

Lemma mem_true_get d k : PyDict.mem k d = true -> exists v, PyDict.get k d = Some v.
Proof. unfold PyDict.mem. destruct (PyDict.get k d); [eauto | discriminate]. Qed.

Lemma mem_false_get d k : PyDict.mem k d = false -> PyDict.get k d = None.
Proof. unfold PyDict.mem. now destruct (PyDict.get k d). Qed.

Lemma dict_eq_refl d : PyDict.eq d d.
Proof. now intros k. Qed.

Lemma dict_eq_sym d1 d2 : PyDict.eq d1 d2 -> PyDict.eq d2 d1.
Proof. intros H k. now rewrite H. Qed.

Lemma dict_eq_trans d1 d2 d3 : PyDict.eq d1 d2 -> PyDict.eq d2 d3 -> PyDict.eq d1 d3.
Proof. intros H1 H2 k. now rewrite H1. Qed.
End DictFacts.

(** ** The error monad *)

Lemma bind_ok {A B : Type} (m : result A) (k : A -> result B) (b : B) :
  bind m k = Ok b -> exists a, m = Ok a /\ k a = Ok b.
Proof. destruct m as [e|a]; simpl; [discriminate | eauto]. Qed.

(** ** [Dependency] *)

Section DependencyFacts.
Variables VT TT : Type.
Variable VersionOperator : string -> result VT.
Variable ToolchainVersionOperator : string -> result TT.

Let parse := Dependency._from_string VT TT VersionOperator ToolchainVersionOperator.

Lemma dependency_one a txt :
  Convert._split_string txt Dependency.SEPARATOR_DEP = [a] ->
  parse txt = (v <- VersionOperator a ;; Ok [("versop", Dependency.VersOp v)]).
Proof.
  intros H. unfold parse, Dependency._from_string. rewrite H. reflexivity.
Qed.

Lemma dependency_two a b txt :
  Convert._split_string txt Dependency.SEPARATOR_DEP = [a; b] ->
  parse txt = (v <- VersionOperator a ;;
               t <- ToolchainVersionOperator b ;;
               Ok [("versop", Dependency.VersOp v);
                   ("tc_versop", Dependency.TcVersOp t)]).
Proof.
  intros H. unfold parse, Dependency._from_string. rewrite H. reflexivity.
Qed.

Lemma dependency_cardinality txt :
  let n := length (Convert._split_string txt Dependency.SEPARATOR_DEP) in
  n = 0%nat \/ (2 < n)%nat -> parse txt = Raise ValueError.
Proof.
  intros n H. unfold parse, Dependency._from_string. fold n.
  destruct (Nat.ltb_spec n 1); simpl; [reflexivity|].
  destruct (Nat.ltb_spec 2 n); [reflexivity | lia].
Qed.
End DependencyFacts.

(** ** Strings *)

Section StringFacts.
Implicit Types (s t : string) (c a : ascii) (p : ascii -> bool).

Lemma append_nil_r s : (s ++ "")%string = s.
Proof. induction s; simpl; congruence. Qed.

Lemma append_assoc s t u : ((s ++ t) ++ u)%string = (s ++ t ++ u)%string.
Proof. induction s; simpl; congruence. Qed.

Lemma all_chars_app p s t :
  all_chars p (s ++ t) = all_chars p s && all_chars p t.
Proof. induction s; simpl; [reflexivity|]. now rewrite IHs, andb_assoc. Qed.

Lemma all_chars_rev p s : all_chars p (Py.rev s) = all_chars p s.
Proof.
  induction s; simpl; [reflexivity|].
  rewrite all_chars_app, IHs. simpl. rewrite andb_true_r. apply andb_comm.
Qed.

Lemma all_chars_impl p q s :
  (forall a, p a = true -> q a = true) ->
  all_chars p s = true -> all_chars q s = true.
Proof.
  intros Hpq. induction s; simpl; [reflexivity|].
  rewrite !andb_true_iff. intros [H1 H2]. auto.
Qed.

Lemma rev_app s t : Py.rev (s ++ t) = (Py.rev t ++ Py.rev s)%string.
Proof.
  induction s; simpl.
  - now rewrite append_nil_r.
  - now rewrite IHs, append_assoc.
Qed.

Lemma rev_involutive s : Py.rev (Py.rev s) = s.
Proof. induction s; simpl; [reflexivity|]. now rewrite rev_app, IHs. Qed.

Lemma contains_all_chars c s :
  Py.contains c s = negb (all_chars (fun a => negb (Ascii.eqb a c)) s).
Proof.
  induction s; simpl; [reflexivity|].
  rewrite IHs. now destruct (Ascii.eqb a c), (all_chars _ s).
Qed.

Lemma contains_app c s t :
  Py.contains c (s ++ t) = Py.contains c s || Py.contains c t.
Proof. induction s; simpl; [reflexivity|]. now rewrite IHs, orb_assoc. Qed.

(** Stripping changes nothing when no character is white space. *)
Lemma lstrip_no_space s :
  all_chars (fun a => negb (Py.isspace a)) s = true -> Py.lstrip s = s.
Proof.
  destruct s; simpl; [reflexivity|].
  now destruct (Py.isspace a).
Qed.

Lemma strip_no_space s :
  all_chars (fun a => negb (Py.isspace a)) s = true -> Py.strip s = s.
Proof.
  intros H. unfold Py.strip, Py.rstrip.
  rewrite (lstrip_no_space s H), lstrip_no_space, rev_involutive; [reflexivity|].
  now rewrite all_chars_rev.
Qed.
End StringFacts.

(** ** Integer literals *)

Section IntFacts.

Lemma digits_string_of_uint u : forall acc b,
  u <> Nil \/ b = true ->
  Py.digits acc b (NilEmpty.string_of_uint u) = Some (uint_value acc u).
Proof.
  induction u; intros acc b H; simpl;
    try (apply IHu; now right).
  destruct H as [H|H]; [congruence | now subst].
Qed.

Lemma of_uint_acc_value u : forall p,
  Zpos (Pos.of_uint_acc u p) = uint_value (Zpos p) u.
Proof.
  induction u; intros p; cbn [Pos.of_uint_acc uint_value]; try reflexivity;
    rewrite IHu; f_equal; lia.
Qed.

Lemma of_uint_value u : Z.of_uint u = uint_value 0 u.
Proof.
  unfold Z.of_uint.
  induction u; simpl; try reflexivity; try assumption;
    rewrite of_uint_acc_value; reflexivity.
Qed.

Lemma string_of_uint_digits u :
  all_chars Py.isdigit (NilEmpty.string_of_uint u) = true.
Proof. induction u; simpl; auto. Qed.

Lemma digit_not_space a : Py.isdigit a = true -> negb (Py.isspace a) = true.
Proof.
  destruct a as [[] [] [] [] [] [] [] []]; vm_compute; congruence.
Qed.

(** A string of digits is read as the number it denotes. *)
Lemma read_int_uint u :
  u <> Nil -> Py.read_int (NilEmpty.string_of_uint u) = Some (Z.of_uint u).
Proof.
  intros Hu. unfold Py.read_int.
  rewrite strip_no_space.
  2:{ apply all_chars_impl with (p := Py.isdigit);
        [apply digit_not_space | apply string_of_uint_digits]. }
  rewrite of_uint_value.
  destruct u; try congruence; simpl;
    apply digits_string_of_uint; now right.
Qed.

Lemma read_int_decimal s n :
  decimal_numeral s n -> Py.read_int s = Some n.
Proof.
  intros (u & Hs & Hu & ->).
  apply NilEmpty.sus in Hs. subst s. now apply read_int_uint.
Qed.

End IntFacts.

Section IntLiteralFacts.

Lemma lstrip_decompose s :
  exists lead, s = (lead ++ Py.lstrip s)%string /\ all_chars Py.isspace lead = true.
Proof.
  induction s as [|a s (lead & E & H)]; simpl.
  - now exists "".
  - destruct (Py.isspace a) eqn:Ea.
    + exists (String a lead). simpl. rewrite Ea, H. now rewrite <- E.
    + now exists "".
Qed.

Lemma strip_decompose s :
  exists lead trail,
    s = (lead ++ Py.strip s ++ trail)%string /\
    all_chars Py.isspace lead = true /\ all_chars Py.isspace trail = true.
Proof.
  destruct (lstrip_decompose s) as (lead & E1 & H1).
  destruct (lstrip_decompose (Py.rev (Py.lstrip s))) as (rtrail & E2 & H2).
  exists lead, (Py.rev rtrail). repeat split; trivial.
  - rewrite E1 at 1. f_equal. unfold Py.strip, Py.rstrip.
    rewrite <- rev_app, <- E2. now rewrite rev_involutive.
  - now rewrite all_chars_rev.
Qed.

Lemma digits_groups s : forall acc b n,
  Py.digits acc b s = Some n ->
  digit_groups s \/
  (b = true /\ (s = "" \/ exists s', s = String "_" s' /\ digit_groups s')).
Proof.
  induction s as [|a s IH]; intros acc b n; simpl.
  - destruct b; [intros _; right; auto | discriminate].
  - destruct (Py.isdigit a) eqn:Ea.
    + intros H. left. apply IH in H.
      destruct H as [H | (_ & [-> | (s' & -> & H)])].
      * now apply groups_digit.
      * now apply groups_last.
      * now apply groups_underscore.
    + destruct (Ascii.eqb_spec a "_") as [->|]; [|discriminate].
      destruct b; [|discriminate].
      intros H. apply IH in H. destruct H as [H | (? & _)]; [|discriminate].
      right. split; [reflexivity|]. right. eauto.
Qed.

Lemma digits_false_groups s acc n :
  Py.digits acc false s = Some n -> digit_groups s.
Proof.
  intros H. apply digits_groups in H. destruct H as [H | (? & _)]; [assumption | discriminate].
Qed.

(** What [int] accepts is an integer literal. *)
Lemma read_int_literal s n : Py.read_int s = Some n -> int_syntax s.
Proof.
  unfold Py.read_int. intros H.
  destruct (strip_decompose s) as (lead & trail & E & Hl & Ht).
  assert (Hcases :
    (exists m, Py.digits 0 false (Py.strip s) = Some m) \/
    (exists r m, Py.strip s = String "+" r /\ Py.digits 0 false r = Some m) \/
    (exists r m, Py.strip s = String "-" r /\ Py.digits 0 false r = Some m)).
  { destruct (Py.strip s) as [|a r]; [eauto|].
    destruct (Ascii.eqb_spec a "+") as [->|Hp].
    { right; left; eauto. }
    destruct (Ascii.eqb_spec a "-") as [->|Hm].
    { right; right. destruct (Py.digits 0 false r) eqn:Ed; [eauto | discriminate H]. }
    left. exists n. rewrite <- H.
    destruct a as [[] [] [] [] [] [] [] []]; try reflexivity; congruence. }
  destruct Hcases as [(m & Hd) | [(r & m & Hs & Hd) | (r & m & Hs & Hd)]];
    apply digits_false_groups in Hd.
  - exists lead, "", (Py.strip s), trail. simpl. repeat split; auto.
  - exists lead, "+", r, trail. rewrite Hs in E. simpl. repeat split; auto.
  - exists lead, "-", r, trail. rewrite Hs in E. simpl. repeat split; auto.
Qed.

End IntLiteralFacts.

Section IntLiteralComplete.

Lemma lstrip_app_space lead t :
  all_chars Py.isspace lead = true -> Py.lstrip (lead ++ t) = Py.lstrip t.
Proof.
  induction lead as [|a lead IH]; simpl; [reflexivity|].
  intros H. apply andb_true_iff in H as [Ha H]. rewrite Ha. auto.
Qed.

Lemma strip_exact lead t trail a r a' r' :
  all_chars Py.isspace lead = true ->
  all_chars Py.isspace trail = true ->
  t = String a r -> Py.isspace a = false ->
  Py.rev t = String a' r' -> Py.isspace a' = false ->
  Py.strip (lead ++ t ++ trail) = t.
Proof.
  intros Hl Ht Et Ha Er Ha'. unfold Py.strip, Py.rstrip.
  rewrite lstrip_app_space by assumption.
  assert (Py.lstrip (t ++ trail) = (t ++ trail)%string) as ->.
  { rewrite Et. simpl. now rewrite Ha. }
  rewrite rev_app, lstrip_app_space by now rewrite all_chars_rev.
  rewrite Er. simpl. rewrite Ha'. rewrite <- Er. apply rev_involutive.
Qed.

Lemma groups_first s : digit_groups s -> exists d r, s = String d r /\ Py.isdigit d = true.
Proof. destruct 1; eauto. Qed.

Lemma groups_last_digit s :
  digit_groups s -> exists d r, Py.rev s = String d r /\ Py.isdigit d = true.
Proof.
  induction 1 as [d Hd | d s Hd _ (d' & r & E & Hd') | d s Hd _ (d' & r & E & Hd')].
  - now exists d, "".
  - exists d', (r ++ String d "")%string. simpl. now rewrite E.
  - exists d', ((r ++ "_") ++ String d "")%string. simpl. now rewrite E.
Qed.

Lemma digits_of_groups s :
  digit_groups s -> forall acc b, exists n, Py.digits acc b s = Some n.
Proof.
  induction 1 as [d Hd | d s Hd _ IH | d s Hd _ IH]; intros acc b; simpl; rewrite Hd.
  - eauto.
  - apply IH.
  - simpl. apply IH.
Qed.

Lemma digit_neither_sign_nor_space d :
  Py.isdigit d = true -> d <> "+"%char /\ d <> "-"%char /\ Py.isspace d = false.
Proof.
  destruct d as [[] [] [] [] [] [] [] []]; vm_compute;
    intros; repeat split; congruence.
Qed.

Lemma read_int_unsigned (d : ascii) (r : string) :
  d <> "+"%char -> d <> "-"%char ->
  forall t, Py.strip t = String d r -> Py.read_int t = Py.digits 0 false (String d r).
Proof.
  intros Hp Hm t E. unfold Py.read_int. rewrite E.
  destruct d as [[] [] [] [] [] [] [] []]; try reflexivity; congruence.
Qed.

(** Every integer literal is accepted by [int]. *)
Lemma int_syntax_accepted s : int_syntax s -> exists n, Py.read_int s = Some n.
Proof.
  intros (lead & sign & body & trail & -> & Hl & Ht & Hsign & Hb).
  destruct (groups_first _ Hb) as (d & r & Ed & Hd).
  destruct (groups_last_digit _ Hb) as (d' & r' & Ed' & Hd').
  destruct (digit_neither_sign_nor_space d Hd) as (Hp & Hm & Hs).
  destruct (digit_neither_sign_nor_space d' Hd') as (_ & _ & Hs').
  destruct (digits_of_groups _ Hb 0 false) as (n & Hn).
  destruct Hsign as [-> | [-> | ->]].
  - simpl. exists n.
    rewrite (read_int_unsigned d r Hp Hm).
    + now rewrite <- Ed.
    + rewrite <- Ed. eapply strip_exact; eauto.
  - exists n. unfold Py.read_int.
    change (lead ++ "+" ++ body ++ trail)%string
      with (lead ++ ("+" ++ body) ++ trail)%string.
    rewrite (strip_exact lead ("+" ++ body) trail "+" body d' (r' ++ "+") Hl Ht);
      trivial.
    simpl. now rewrite Ed'.
  - exists (- n)%Z. unfold Py.read_int.
    change (lead ++ "-" ++ body ++ trail)%string
      with (lead ++ ("-" ++ body) ++ trail)%string.
    rewrite (strip_exact lead ("-" ++ body) trail "-" body d' (r' ++ "-") Hl Ht);
      trivial.
    + simpl. now rewrite Hn.
    + simpl. now rewrite Ed'.
Qed.

Lemma int_syntax_iff s : int_syntax s <-> exists n, Py.read_int s = Some n.
Proof.
  split; [apply int_syntax_accepted | intros (n & H); eauto using read_int_literal].
Qed.

Lemma not_int_syntax s : ~ int_syntax s -> Py.read_int s = None.
Proof.
  intros H. destruct (Py.read_int s) eqn:E; [|reflexivity].
  exfalso. eauto using read_int_literal.
Qed.

(** Printing an integer and reading it back. *)
Lemma read_int_of_int n : Py.read_int (Py.str_of_int n) = Some n.
Proof.
  unfold Py.str_of_int. destruct n as [|p|p]; [reflexivity| |]; simpl.
  - pose proof (Unsigned.to_uint_nonnil p) as Hnil.
    assert (NilZero.string_of_uint (Pos.to_uint p)
            = NilEmpty.string_of_uint (Pos.to_uint p)) as ->.
    { destruct (Pos.to_uint p); congruence || reflexivity. }
    rewrite read_int_uint by assumption.
    unfold Z.of_uint. now rewrite Unsigned.of_to.
  - pose proof (Unsigned.to_uint_nonnil p) as Hnil.
    assert (NilZero.string_of_uint (Pos.to_uint p)
            = NilEmpty.string_of_uint (Pos.to_uint p)) as ->.
    { destruct (Pos.to_uint p); congruence || reflexivity. }
    unfold Py.read_int. rewrite strip_no_space.
    + rewrite digits_string_of_uint by now left.
      rewrite <- of_uint_value. unfold Z.of_uint.
      now rewrite Unsigned.of_to.
    + simpl. apply all_chars_impl with (p := Py.isdigit);
        [apply digit_not_space | apply string_of_uint_digits].
Qed.

End IntLiteralComplete.

(** ** The limit on the digits of a text *)

Section IntLimit.

Lemma digit_count_app s t :
  Py.digit_count (s ++ t) = (Py.digit_count s + Py.digit_count t)%nat.
Proof.
  induction s as [|a s IH]; simpl; [reflexivity|].
  destruct (Py.isdigit a); simpl; now rewrite IH.
Qed.

Lemma digit_count_length s : (Py.digit_count s <= String.length s)%nat.
Proof.
  induction s as [|a s IH]; simpl; [lia|]. destruct (Py.isdigit a); lia.
Qed.

Lemma digit_count_string_of_uint u :
  Py.digit_count (NilEmpty.string_of_uint u) = nb_digits u.
Proof. induction u; simpl; congruence. Qed.

(** A digit character and the digit it stands for. *)
Lemma digit_constructor a :
  Py.isdigit a = true ->
  exists f : uint -> uint,
    (forall acc u, uint_value acc (f u) = uint_value (acc * 10 + Py.digit_value a) u) /\
    (forall u, nb_digits (f u) = S (nb_digits u)).
Proof.
  intros H.
  destruct a as [[] [] [] [] [] [] [] []]; try discriminate H;
    first [ exists D0; split; intros; reflexivity
          | exists D1; split; intros; reflexivity
          | exists D2; split; intros; reflexivity
          | exists D3; split; intros; reflexivity
          | exists D4; split; intros; reflexivity
          | exists D5; split; intros; reflexivity
          | exists D6; split; intros; reflexivity
          | exists D7; split; intros; reflexivity
          | exists D8; split; intros; reflexivity
          | exists D9; split; intros; reflexivity ].
Qed.

(** The digits [Py.digits] reads are the digits of a decimal number. *)
Lemma digits_uint s : forall acc b m,
  Py.digits acc b s = Some m ->
  exists u, nb_digits u = Py.digit_count s /\ m = uint_value acc u.
Proof.
  induction s as [|a s IH]; intros acc b m H; simpl in H.
  - destruct b; [|discriminate]. injection H as <-. now exists Nil.
  - simpl. destruct (Py.isdigit a) eqn:Ha.
    + destruct (IH _ _ _ H) as (u & Hn & ->).
      destruct (digit_constructor a Ha) as (f & Hf & Hnb).
      exists (f u). now rewrite Hf, Hnb, Hn.
    + destruct (Ascii.eqb a "_"); [|discriminate].
      destruct b; [|discriminate]. exact (IH _ _ _ H).
Qed.

Lemma digits_some_digit s acc m :
  Py.digits acc false s = Some m -> (1 <= Py.digit_count s)%nat.
Proof.
  destruct s as [|a s]; simpl; [discriminate|].
  destruct (Py.isdigit a); [lia|]. destruct (Ascii.eqb a "_"); discriminate.
Qed.

(** A number read from [k] digits is printed with at most [k] digits. *)
Lemma str_of_int_digits u :
  u <> Nil ->
  (Py.digit_count (Py.str_of_int (Z.of_uint u)) <= nb_digits u)%nat /\
  (Py.digit_count (Py.str_of_int (- Z.of_uint u)) <= nb_digits u)%nat.
Proof.
  intros Hu. unfold Py.str_of_int.
  assert (Hone : (1 <= nb_digits u)%nat) by (destruct u; simpl; congruence || lia).
  split.
  - change (Z.of_uint u) with (Z.of_int (Pos u)). rewrite DecimalZ.to_of.
    cbn [norm NilZero.string_of_int].
    pose proof (DecimalFacts.nb_digits_unorm u Hu) as Hle.
    destruct (unorm u) eqn:E;
      try (change (NilZero.string_of_uint ?d) with (NilEmpty.string_of_uint d);
           rewrite digit_count_string_of_uint; exact Hle).
    simpl. lia.
  - change (- Z.of_uint u)%Z with (Z.of_int (Neg u)). rewrite DecimalZ.to_of.
    cbn [norm].
    pose proof (DecimalFacts.nb_digits_nzhead u) as Hle.
    destruct (nzhead u) eqn:E; cbn [NilZero.string_of_int];
      try (change (NilZero.string_of_uint ?d) with (NilEmpty.string_of_uint d);
           cbn [Py.digit_count]; change (Py.isdigit "-") with false; cbn iota;
           rewrite digit_count_string_of_uint; exact Hle).
    simpl. lia.
Qed.

(** The text [str] prints for a number that was read from [s] has no more
    digits than [s]. *)
Lemma read_int_printed s n :
  Py.read_int s = Some n ->
  (Py.digit_count (Py.str_of_int n) <= Py.digit_count s)%nat.
Proof.
  unfold Py.read_int. intros H.
  destruct (strip_decompose s) as (lead & trail & E & _ & _).
  assert (Hstrip : (Py.digit_count (Py.strip s) <= Py.digit_count s)%nat).
  { rewrite E at 2. rewrite !digit_count_app. lia. }
  assert (Hcases :
    (exists r m, (Py.digit_count r <= Py.digit_count (Py.strip s))%nat /\
                 Py.digits 0 false r = Some m /\ (n = m \/ n = (- m)%Z))).
  { destruct (Py.strip s) as [|a r] eqn:Es.
    { exists "", n. simpl. auto. }
    destruct (Ascii.eqb_spec a "+") as [->|Hp].
    { exists r, n. simpl. auto. }
    destruct (Ascii.eqb_spec a "-") as [->|Hm].
    { destruct (Py.digits 0 false r) as [m|] eqn:Ed; [|discriminate H].
      injection H as <-. exists r, m. simpl. auto. }
    exists (String a r), n. split; [lia|]. split; [|now left].
    rewrite <- H.
    destruct a as [[] [] [] [] [] [] [] []]; try reflexivity; congruence. }
  destruct Hcases as (r & m & Hr & Hd & Hn).
  pose proof (digits_some_digit r 0 m Hd) as Hone.
  destruct (digits_uint r 0 false m Hd) as (u & Hnb & ->).
  rewrite <- of_uint_value in Hn.
  assert (Hu : u <> Nil) by (intros ->; simpl in Hnb; lia).
  destruct (str_of_int_digits u Hu) as [Hpos Hneg].
  destruct Hn as [-> | ->]; lia.
Qed.

(** [int] accepts exactly the integer literals within the limit. *)
Lemma int_literal_iff s : int_literal s <-> exists n, Py.int_of_str s = Some n.
Proof.
  unfold int_literal, Py.int_of_str. rewrite int_syntax_iff.
  destruct (Nat.leb_spec (Py.digit_count s) Py.int_max_str_digits) as [Hle|Hgt].
  - tauto.
  - split; [intros [_ H]; lia | intros (n & H); discriminate H].
Qed.

Lemma int_literal_accepted s : int_literal s -> exists n, Py.int_of_str s = Some n.
Proof. apply int_literal_iff. Qed.

Lemma int_of_str_literal s n : Py.int_of_str s = Some n -> int_literal s.
Proof. intros H. apply int_literal_iff. eauto. Qed.

Lemma not_int_literal s : ~ int_literal s -> Py.int_of_str s = None.
Proof.
  intros H. destruct (Py.int_of_str s) eqn:E; [|reflexivity].
  exfalso. eauto using int_of_str_literal.
Qed.

Lemma int_of_str_read s n :
  Py.int_of_str s = Some n ->
  Py.read_int s = Some n /\ (Py.digit_count s <= Py.int_max_str_digits)%nat.
Proof.
  unfold Py.int_of_str.
  destruct (Nat.leb_spec (Py.digit_count s) Py.int_max_str_digits); [auto | discriminate].
Qed.

Lemma decimal_numeral_digits s n :
  decimal_numeral s n -> Py.digit_count s = String.length s.
Proof.
  intros (u & Hs & _). apply NilEmpty.sus in Hs. subst s.
  rewrite digit_count_string_of_uint. clear. induction u; simpl; congruence.
Qed.

(** A decimal numeral within the limit is read as the number it denotes. *)
Lemma int_of_str_decimal s n :
  decimal_numeral s n -> (String.length s <= Py.int_max_str_digits)%nat ->
  Py.int_of_str s = Some n.
Proof.
  intros Hn Hlen. unfold Py.int_of_str.
  pose proof (digit_count_length s) as Hcount.
  destruct (Nat.leb_spec (Py.digit_count s) Py.int_max_str_digits); [|lia].
  now apply read_int_decimal.
Qed.

(** A number that [int] returned can be printed and read back. *)
Lemma int_of_str_printed s n :
  Py.int_of_str s = Some n ->
  (Py.digit_count (Py.str_of_int n) <= Py.int_max_str_digits)%nat.
Proof.
  intros H. apply int_of_str_read in H as [H Hle].
  apply read_int_printed in H. lia.
Qed.

Lemma int_of_str_of_int n :
  (Py.digit_count (Py.str_of_int n) <= Py.int_max_str_digits)%nat ->
  Py.int_of_str (Py.str_of_int n) = Some n.
Proof.
  intros Hle. unfold Py.int_of_str.
  destruct (Nat.leb_spec (Py.digit_count (Py.str_of_int n)) Py.int_max_str_digits);
    [apply read_int_of_int | lia].
Qed.

End IntLimit.

(** ** [Patch._from_string] over any inherited parser *)

Section PatchOverBase.
Variable base : string -> result (dict Py.value).
Variables (txt : string) (res : dict Py.value).
Hypothesis Hbase : base txt = Ok res.

Lemma patch_without_level :
  PyDict.mem "level" res = false -> Patch._from_string_over base txt = Ok res.
Proof.
  intros H. unfold Patch._from_string_over. rewrite Hbase. simpl. now rewrite H.
Qed.

Lemma patch_with_level old :
  PyDict.get "level" res = Some old ->
  Patch._from_string_over base txt
  = (new <- Py.int old ;; Ok (PyDict.set "level" new res)).
Proof.
  intros H. unfold Patch._from_string_over, PyDict.mem, PyDict.getitem.
  rewrite Hbase. simpl. now rewrite H.
Qed.

Lemma patch_result_shape out :
  Patch._from_string_over base txt = Ok out ->
  out = res /\ PyDict.mem "level" res = false \/
  exists old new, PyDict.get "level" res = Some old /\ Py.int old = Ok new /\
                  out = PyDict.set "level" new res.
Proof.
  destruct (PyDict.mem "level" res) eqn:Hm.
  - destruct (mem_true_get _ _ Hm) as (old & Hold).
    rewrite (patch_with_level old Hold). intros H.
    apply bind_ok in H as (new & Hnew & [= <-]). right. eauto.
  - rewrite (patch_without_level Hm). intros [= <-]. now left.
Qed.
End PatchOverBase.

(** ** [Patches._from_string] *)

Section ComprehensionFacts.
Context {A : Type}.
Variable construct : string -> result A.

Lemma comprehension_ok res : forall ps calls,
  Patches.comprehension construct res = (calls, Ok ps) ->
  calls = res /\ Forall2 (fun x p => construct x = Ok p) res ps.
Proof.
  induction res as [|x res IH]; simpl; intros ps calls.
  - intros [= <- <-]. split; constructor.
  - destruct (construct x) as [e|p] eqn:Ex; [discriminate|].
    destruct (Patches.comprehension construct res) as [calls' [e|ps']];
      simpl; [discriminate|].
    intros [= <- <-]. destruct (IH ps' calls' eq_refl) as [-> HF].
    split; [reflexivity | now constructor].
Qed.

Lemma comprehension_all_ok res :
  Forall (fun x => is_ok (construct x) = true) res ->
  exists ps, Patches.comprehension construct res = (res, Ok ps).
Proof.
  induction 1 as [|x res Hx _ (ps & IH)]; simpl.
  - now exists [].
  - destruct (construct x) as [e|p]; [discriminate|].
    rewrite IH. now exists (p :: ps).
Qed.

Lemma comprehension_first_failure pre x post e :
  Forall (fun x => is_ok (construct x) = true) pre ->
  construct x = Raise e ->
  Patches.comprehension construct (pre ++ x :: post) = (pre ++ [x], Raise e).
Proof.
  intros Hpre Hx. induction Hpre as [|y pre Hy _ IH]; simpl.
  - now rewrite Hx.
  - destruct (construct y) as [e'|p]; [discriminate|]. now rewrite IH.
Qed.
End ComprehensionFacts.

Lemma patches_segments_parsed txt ps :
  Patches._from_string txt = Ok ps ->
  Forall2 (fun seg p => Patch._from_string seg = Ok p) (Py.split "," txt) ps.
Proof.
  unfold Patches._from_string, Patches._from_string_traced,
    ListOfStrings._from_string, Convert._split_string.
  change (Py.split ListOfStrings.SEPARATOR_LIST txt) with (Py.split "," txt).
  intros H.
  destruct (Patches.comprehension Patch.new (Py.split "," txt)) as [calls r] eqn:E.
  simpl in H. subst r. now apply comprehension_ok in E.
Qed.

(** ** Splitting and joining *)

Section SplitFacts.
Variable sep : ascii.
Implicit Types (s t : string) (l : list string).

Lemma split_not_nil s : Py.split sep s <> [].
Proof.
  destruct s as [|a s]; simpl; [discriminate|].
  destruct (Ascii.eqb a sep); [discriminate|].
  destruct (Py.split sep s); discriminate.
Qed.

Lemma split_no_sep s : Py.contains sep s = false -> Py.split sep s = [s].
Proof.
  induction s as [|a s IH]; simpl; [reflexivity|].
  destruct (Ascii.eqb a sep); simpl; [discriminate|].
  intros H. now rewrite (IH H).
Qed.

Lemma split_app s t :
  Py.contains sep s = false ->
  Py.split sep (s ++ String sep t) = s :: Py.split sep t.
Proof.
  induction s as [|a s IH]; simpl.
  - now rewrite Ascii.eqb_refl.
  - destruct (Ascii.eqb a sep); simpl; [discriminate|].
    intros H. now rewrite (IH H).
Qed.

Lemma split_join l :
  l <> [] -> Forall (fun s => Py.contains sep s = false) l ->
  Py.split sep (Py.join sep l) = l.
Proof.
  intros Hne H. induction H as [|s l Hs Hl IH]; [congruence|].
  destruct l as [|s' l].
  - simpl. now apply split_no_sep.
  - change (Py.join sep (s :: s' :: l))
      with (s ++ String sep (Py.join sep (s' :: l)))%string.
    rewrite split_app by assumption. f_equal. apply IH. discriminate.
Qed.

Lemma split_segments_no_sep s :
  Forall (fun x => Py.contains sep x = false) (Py.split sep s).
Proof.
  induction s as [|a s IH]; simpl.
  - now constructor.
  - destruct (Ascii.eqb a sep) eqn:E.
    + now constructor.
    + destruct (Py.split sep s) as [|x xs]; inversion IH; subst;
        constructor; simpl; try rewrite E; auto.
Qed.

(** Segments inherit the absence of any other character. *)
Lemma split_segments_no_char c s :
  Py.contains c s = false ->
  Forall (fun x => Py.contains c x = false) (Py.split sep s).
Proof.
  induction s as [|a s IH]; simpl.
  - now constructor.
  - intros H. apply orb_false_iff in H as [Ha Hs]. specialize (IH Hs).
    destruct (Ascii.eqb a sep).
    + now constructor.
    + destruct (Py.split sep s) as [|x xs]; inversion IH; subst;
        constructor; simpl; try rewrite Ha; auto.
Qed.

Lemma split_first_none s :
  Py.contains sep s = false -> Py.split_first sep s = None.
Proof.
  induction s as [|a s IH]; simpl; [reflexivity|].
  destruct (Ascii.eqb a sep); simpl; [discriminate|].
  intros H. now rewrite (IH H).
Qed.

Lemma split_first_some s :
  Py.contains sep s = true -> exists kv, Py.split_first sep s = Some kv.
Proof.
  induction s as [|a s IH]; simpl; [discriminate|].
  destruct (Ascii.eqb a sep); simpl; [eauto|].
  intros H. destruct (IH H) as ([k v] & ->). eauto.
Qed.

Lemma split_first_app k v :
  Py.contains sep k = false ->
  Py.split_first sep (k ++ String sep v) = Some (k, v).
Proof.
  induction k as [|a k IH]; simpl.
  - now rewrite Ascii.eqb_refl.
  - destruct (Ascii.eqb a sep); simpl; [discriminate|].
    intros H. now rewrite (IH H).
Qed.

Lemma split_first_inv s k v :
  Py.split_first sep s = Some (k, v) ->
  s = (k ++ String sep v)%string /\ Py.contains sep k = false.
Proof.
  revert k. induction s as [|a s IH]; simpl; [discriminate|]. intros k.
  destruct (Ascii.eqb_spec a sep) as [->|Hne].
  - intros [= <- <-]. now split.
  - destruct (Py.split_first sep s) as [[k' v']|]; [|discriminate].
    intros [= <- <-]. destruct (IH k' eq_refl) as [-> Hk]. split; [reflexivity|].
    simpl. rewrite Hk. now apply Ascii.eqb_neq in Hne as ->.
Qed.

Lemma split_first_contains s kv :
  Py.split_first sep s = Some kv -> Py.contains sep s = true.
Proof.
  intros H. destruct (Py.contains sep s) eqn:E; [reflexivity|].
  rewrite (split_first_none s E) in H. discriminate.
Qed.
End SplitFacts.

(** ** [DictOfStrings._from_string] *)

Section DictOfStringsFacts.
Import DictOfStrings.

Lemma explicit_malformed rest :
  forallb has_colon rest = false -> explicit rest = Raise ParseError.
Proof.
  induction rest as [|s rest IH]; simpl; [discriminate|].
  destruct (has_colon s) eqn:Hs; simpl.
  - intros H. destruct (split_first_some _ _ Hs) as (kv & ->).
    now rewrite (IH H).
  - intros _. unfold has_colon in Hs. now rewrite split_first_none.
Qed.

Lemma explicit_wellformed rest :
  forallb has_colon rest = true ->
  exists keyed, explicit rest = Ok keyed /\
    Forall2 (fun s kv => Py.split_first SEPARATOR_KEY_VALUE s = Some kv) rest keyed.
Proof.
  induction rest as [|s rest IH]; simpl.
  - exists []. split; constructor.
  - intros H. apply andb_true_iff in H as [Hs H].
    destruct (split_first_some _ _ Hs) as (kv & Hkv).
    destruct (IH H) as (keyed & -> & HF).
    exists (kv :: keyed). rewrite Hkv. split; [reflexivity | now constructor].
Qed.

Lemma explicit_ok rest keyed :
  explicit rest = Ok keyed ->
  Forall2 (fun s kv => Py.split_first SEPARATOR_KEY_VALUE s = Some kv) rest keyed.
Proof.
  revert keyed. induction rest as [|s rest IH]; simpl; intros keyed.
  - intros [= <-]. constructor.
  - destruct (Py.split_first SEPARATOR_KEY_VALUE s) as [kv|] eqn:E; [|discriminate].
    intros H. apply bind_ok in H as (kvs & Hk & [= <-]).
    constructor; auto.
Qed.

Lemma Forall2_In_l {A B : Type} (R : A -> B -> Prop) l l' a :
  Forall2 R l l' -> In a l -> exists b, In b l' /\ R a b.
Proof.
  induction 1 as [|x y l l' Hxy _ IH]; simpl; [tauto|].
  intros [->|H]; [eauto | destruct (IH H) as (b & ? & ?); eauto].
Qed.

Lemma validate_unknown c assigned keyed kv :
  In kv keyed -> in_list (fst kv) (allowed_key_set c) = false ->
  validate c assigned keyed = Raise ValidationError.
Proof.
  intros Hin Hk. unfold validate.
  destruct (forallb _ keyed) eqn:E; [|reflexivity].
  rewrite forallb_forall in E. specialize (E kv Hin). simpl in E. congruence.
Qed.

Lemma validate_duplicate c assigned keyed kv :
  In kv keyed -> in_list (fst kv) (map fst assigned) = true ->
  validate c assigned keyed = Raise ValidationError.
Proof.
  intros Hin Hk. unfold validate.
  destruct (forallb (fun kv => negb _) keyed) eqn:E; [|now rewrite andb_false_r].
  rewrite forallb_forall in E. specialize (E kv Hin). simpl in E.
  rewrite Hk in E. discriminate.
Qed.

Lemma from_string_steps c txt assigned rest :
  positional (KEYLESS_ENTRIES c) (Py.split SEPARATOR_DICT txt) = (assigned, rest) ->
  _from_string c txt
  = (keyed <- explicit rest ;;
     _ <- validate c assigned keyed ;;
     Ok (build (assigned ++ keyed))).
Proof.
  intros H. unfold _from_string, Convert._split_string. now rewrite H.
Qed.

(** With the one keyless entry of [Patch], only the first segment can be
    positional. *)
Lemma patch_positional s0 rest :
  positional Patch.KEYLESS_ENTRIES (s0 :: rest)
  = if has_colon s0 then ([], s0 :: rest) else ([("filename", s0)], rest).
Proof.
  unfold has_colon. simpl. destruct (Py.contains SEPARATOR_KEY_VALUE s0); [reflexivity|].
  now destruct rest.
Qed.

Lemma patch_base_error txt e :
  _from_string Patch.config txt = Raise e -> Patch._from_string txt = Raise e.
Proof.
  intros H. unfold Patch._from_string, Patch._from_string_over. now rewrite H.
Qed.
End DictOfStringsFacts.

(** ** Positional and explicit form of a [Patch] *)

Section PatchForms.
Variables f l : string.
Hypothesis Hf_colon : Py.contains ":" f = false.
Hypothesis Hf_semicolon : Py.contains ";" f = false.
Hypothesis Hl_semicolon : Py.contains ";" l = false.

Let parsed : result (dict Py.value) :=
  new <- Py.int (Py.Str l) ;; Ok [("filename", Py.Str f); ("level", new)].

Lemma patch_shorthand :
  Patch._from_string (f ++ ";level:" ++ l) = parsed.
Proof.
  unfold Patch._from_string, Patch._from_string_over.
  rewrite (from_string_steps Patch.config _ [("filename", f)] ["level:" ++ l]%string).
  - reflexivity.
  - unfold DictOfStrings.SEPARATOR_DICT.
    change (f ++ ";level:" ++ l)%string with (f ++ String ";" ("level:" ++ l))%string.
    rewrite split_app by assumption.
    rewrite split_no_sep by (simpl; assumption).
    rewrite patch_positional. unfold has_colon, DictOfStrings.SEPARATOR_KEY_VALUE.
    now rewrite Hf_colon.
Qed.

Lemma patch_fully_keyed :
  Patch._from_string ("filename:" ++ f ++ ";level:" ++ l) = parsed.
Proof.
  unfold Patch._from_string, Patch._from_string_over.
  rewrite (from_string_steps Patch.config _ []
             ["filename:" ++ f; "level:" ++ l]%string).
  - reflexivity.
  - unfold DictOfStrings.SEPARATOR_DICT.
    change ("filename:" ++ f ++ ";level:" ++ l)%string
      with (("filename:" ++ f) ++ String ";" ("level:" ++ l))%string.
    rewrite split_app by (simpl; assumption).
    rewrite split_no_sep by (simpl; assumption).
    reflexivity.
Qed.
End PatchForms.

(** The shorthand [filename;level:value] with a numeral or a non-numeric
    level. *)
Lemma patch_shorthand_level_integer f l n :
  Py.contains ":" f = false -> Py.contains ";" f = false -> Py.contains ";" l = false ->
  decimal_numeral l n -> (String.length l <= Py.int_max_str_digits)%nat ->
  Patch._from_string (f ++ ";level:" ++ l)
  = Ok [("filename", Py.Str f); ("level", Py.Int n)].
Proof.
  intros Hfc Hfs Hls Hn Hlen. rewrite patch_shorthand by assumption.
  simpl. now rewrite (int_of_str_decimal l n Hn Hlen).
Qed.

Lemma patch_shorthand_level_not_integer f l :
  Py.contains ":" f = false -> Py.contains ";" f = false -> Py.contains ";" l = false ->
  ~ int_literal l ->
  Patch._from_string (f ++ ";level:" ++ l) = Raise ValueError.
Proof.
  intros Hfc Hfs Hls Hn. rewrite patch_shorthand by assumption.
  simpl. now rewrite (not_int_literal l Hn).
Qed.

(** ** Dicts with unique keys *)

Section DictEntries.
Context {V : Type}.
Implicit Types (d : dict V) (k : string) (v : V).

Lemma get_None_not_in d k : PyDict.get k d = None <-> ~ In k (PyDict.keys d).
Proof.
  induction d as [|[k' v'] d IH]; simpl; [tauto|].
  destruct (String.eqb_spec k' k) as [->|Hne].
  - split; [discriminate | tauto].
  - rewrite IH. tauto.
Qed.

Lemma get_In d k v : PyDict.get k d = Some v -> In (k, v) d.
Proof.
  induction d as [|[k' v'] d IH]; simpl; [discriminate|].
  destruct (String.eqb_spec k' k) as [->|Hne].
  - intros [= ->]. now left.
  - auto.
Qed.

Lemma In_get d k v : NoDup (PyDict.keys d) -> In (k, v) d -> PyDict.get k d = Some v.
Proof.
  induction d as [|[k' v'] d IH]; simpl; [tauto|].
  intros Hnd. inversion Hnd as [|? ? Hnotin Hnd']; subst.
  intros [[= -> ->] | Hin].
  - now rewrite String.eqb_refl.
  - destruct (String.eqb_spec k' k) as [->|Hne]; [|auto].
    exfalso. apply Hnotin. now apply (in_map fst) in Hin.
Qed.

Lemma set_fresh d k v : ~ In k (PyDict.keys d) -> PyDict.set k v d = d ++ [(k, v)].
Proof.
  induction d as [|[k' v'] d IH]; simpl; [reflexivity|].
  intros H. destruct (String.eqb_spec k' k) as [->|Hne]; [tauto|].
  rewrite IH; tauto.
Qed.

Lemma keys_set d k v :
  PyDict.keys (PyDict.set k v d)
  = if PyDict.mem k d then PyDict.keys d else PyDict.keys d ++ [k].
Proof.
  destruct (PyDict.mem k d) eqn:E.
  - now apply keys_set_mem.
  - apply mem_false_get, get_None_not_in in E.
    rewrite set_fresh by assumption. unfold PyDict.keys. now rewrite map_app.
Qed.

Lemma set_keys_nodup d k v :
  NoDup (PyDict.keys d) -> NoDup (PyDict.keys (PyDict.set k v d)).
Proof.
  intros H. rewrite keys_set. destruct (PyDict.mem k d) eqn:E; [assumption|].
  apply mem_false_get, get_None_not_in in E.
  apply NoDup_app; [assumption | repeat constructor; simpl; tauto |].
  intros a Ha [<-|[]]. contradiction.
Qed.

Lemma In_set d k v k' v' :
  NoDup (PyDict.keys d) ->
  In (k', v') (PyDict.set k v d) ->
  (k' = k /\ v' = v) \/ (k' <> k /\ In (k', v') d).
Proof.
  induction d as [|[k0 v0] d IH]; simpl.
  - intros _ [[= <- <-]|[]]. now left.
  - intros Hnd. inversion Hnd as [|? ? Hnotin Hnd']; subst.
    destruct (String.eqb_spec k0 k) as [->|Hne]; simpl.
    + intros [[= <- <-]|Hin]; [now left|].
      right. split; [|now right].
      intros ->. apply Hnotin. now apply (in_map fst) in Hin.
    + intros [[= <- <-]|Hin].
      * right. split; [assumption | now left].
      * destruct (IH Hnd' Hin) as [?|[? ?]]; [now left | right; auto].
Qed.

Lemma get_app d1 d2 k :
  PyDict.get k (d1 ++ d2)
  = match PyDict.get k d1 with Some v => Some v | None => PyDict.get k d2 end.
Proof.
  induction d1 as [|[k' v'] d1 IH]; simpl; [reflexivity|].
  now destruct (String.eqb k' k).
Qed.

Lemma get_filter_other d k (keep : string -> bool) :
  keep k = true ->
  PyDict.get k (filter (fun kv => keep (fst kv)) d) = PyDict.get k d.
Proof.
  intros Hk. induction d as [|[k' v'] d IH]; simpl; [reflexivity|].
  destruct (keep k') eqn:E; simpl.
  - now rewrite IH.
  - destruct (String.eqb_spec k' k) as [->|Hne]; [congruence | assumption].
Qed.

Lemma filter_keys_nodup d (keep : string -> bool) :
  NoDup (PyDict.keys d) ->
  NoDup (PyDict.keys (filter (fun kv => keep (fst kv)) d)).
Proof.
  induction d as [|[k' v'] d IH]; simpl; [constructor|].
  intros Hnd. inversion Hnd as [|? ? Hnotin Hnd']; subst.
  destruct (keep k'); simpl; [|auto].
  constructor; [|auto].
  intros Hin. apply Hnotin. unfold PyDict.keys in *.
  apply in_map_iff in Hin as (kv & <- & Hkv).
  apply filter_In in Hkv as [Hkv _]. now apply in_map.
Qed.
End DictEntries.

(** ** The mappings [DictOfStrings._from_string] builds *)

Section BuildFacts.
Import DictOfStrings.

Let step (d : dict Py.value) (kv : string * string) : dict Py.value :=
  PyDict.set (fst kv) (Py.Str (snd kv)) d.

Lemma fold_keys_nodup kvs : forall acc,
  NoDup (PyDict.keys acc) -> NoDup (PyDict.keys (fold_left step kvs acc)).
Proof.
  induction kvs as [|kv kvs IH]; simpl; intros acc H; [assumption|].
  apply IH. now apply set_keys_nodup.
Qed.

Lemma fold_entries kvs : forall acc k v,
  NoDup (PyDict.keys acc) ->
  In (k, v) (fold_left step kvs acc) ->
  In (k, v) acc \/ exists s, v = Py.Str s /\ In (k, s) kvs.
Proof.
  induction kvs as [|[k0 s0] kvs IH]; simpl; intros acc k v Hnd Hin; [now left|].
  apply IH in Hin; [|now apply set_keys_nodup].
  destruct Hin as [Hin | (s & -> & Hin)].
  - apply In_set in Hin; [|assumption].
    destruct Hin as [[-> ->] | [_ Hin]]; [right; eauto | now left].
  - right. eauto.
Qed.

Lemma fold_not_empty kvs : forall acc,
  acc <> [] \/ kvs <> [] -> fold_left step kvs acc <> [].
Proof.
  induction kvs as [|kv kvs IH]; simpl; intros acc H.
  - destruct H; congruence.
  - apply IH. left. unfold step. destruct acc as [|[k' v'] acc]; simpl; [discriminate|].
    destruct (String.eqb k' (fst kv)); discriminate.
Qed.

Lemma fold_fresh kvs : forall acc,
  NoDup (map fst kvs) ->
  (forall k, In k (map fst kvs) -> ~ In k (PyDict.keys acc)) ->
  fold_left step kvs acc
  = acc ++ map (fun kv => (fst kv, Py.Str (snd kv))) kvs.
Proof.
  induction kvs as [|[k s] kvs IH]; simpl; intros acc Hnd Hfresh.
  - now rewrite app_nil_r.
  - inversion Hnd as [|? ? Hk Hnd']; subst.
    unfold step at 2. simpl. rewrite set_fresh by auto.
    rewrite IH; [now rewrite <- app_assoc | assumption |].
    intros k' Hk'. unfold PyDict.keys. rewrite map_app, in_app_iff. simpl.
    intros [Hin | [<- | []]]; [|contradiction].
    now apply (Hfresh k'); [right|].
Qed.

Lemma build_unique_keys kvs :
  NoDup (map fst kvs) ->
  build kvs = map (fun kv => (fst kv, Py.Str (snd kv))) kvs.
Proof.
  intros H. change (build kvs) with (fold_left step kvs []).
  now rewrite (fold_fresh kvs []).
Qed.

Lemma build_keys_nodup kvs : NoDup (PyDict.keys (build kvs)).
Proof. apply fold_keys_nodup. constructor. Qed.

Lemma build_entries kvs k v :
  In (k, v) (build kvs) -> exists s, v = Py.Str s /\ In (k, s) kvs.
Proof.
  intros H. change (build kvs) with (fold_left step kvs []) in H.
  apply fold_entries in H; [|constructor].
  now destruct H as [[]|H].
Qed.

Lemma build_not_empty kvs : kvs <> [] -> build kvs <> [].
Proof. intros H. apply fold_not_empty. now right. Qed.

Lemma validate_ok c assigned keyed :
  validate c assigned keyed = Ok tt ->
  forall kv, In kv keyed ->
    in_list (fst kv) (allowed_key_set c) = true /\
    in_list (fst kv) (map fst assigned) = false.
Proof.
  unfold validate.
  destruct (forallb _ keyed) eqn:E1; [|discriminate].
  destruct (forallb (fun kv => negb _) keyed) eqn:E2; [|discriminate].
  intros _ kv Hin. rewrite forallb_forall in E1, E2.
  specialize (E1 kv Hin). specialize (E2 kv Hin). simpl in *.
  split; [assumption | now apply negb_true_iff].
Qed.

Lemma validate_cases c assigned keyed u :
  validate c assigned keyed = Ok u -> validate c assigned keyed = Ok tt.
Proof. now destruct u. Qed.
End BuildFacts.

(** ** The values [Patch._from_string] returns *)

Section PatchValues.
Import DictOfStrings.
Variable c : ascii.

Let clean (s : string) : Prop :=
  Py.contains ";" s = false /\ Py.contains c s = false.

Lemma allowed_key_cases k :
  in_list k (allowed_key_set Patch.config) = true ->
  k = "filename" \/ k = "level" \/ k = "dest".
Proof.
  simpl. rewrite !orb_true_iff, !String.eqb_eq. intuition congruence.
Qed.

Lemma keyed_values_clean rest keyed :
  Forall clean rest ->
  Forall2 (fun s kv => Py.split_first SEPARATOR_KEY_VALUE s = Some kv) rest keyed ->
  Forall (fun kv => clean (snd kv)) keyed.
Proof.
  intros Hrest HF. induction HF as [|s [k v] rest keyed Hs _ IH]; [constructor|].
  inversion Hrest as [|? ? [H1 H2] Hrest']; subst.
  constructor; [|auto]. simpl.
  apply split_first_inv in Hs as [-> _].
  rewrite contains_app in H1, H2. simpl in H1, H2.
  apply orb_false_iff in H1 as [_ H1]. apply orb_false_iff in H2 as [_ H2].
  apply orb_false_iff in H2 as [_ H2].
  now split.
Qed.

Lemma dict_parse_entries txt res :
  Forall (fun s => Py.contains c s = false) (Py.split ";" txt) ->
  _from_string Patch.config txt = Ok res ->
  NoDup (PyDict.keys res) /\ res <> [] /\
  forall k v, In (k, v) res ->
    exists s, v = Py.Str s /\ (k = "filename" \/ k = "level" \/ k = "dest") /\ clean s.
Proof.
  intros Hchar Hparse.
  pose proof (split_segments_no_sep ";" txt) as Hsemi.
  assert (Hclean : Forall clean (Py.split ";" txt)).
  { apply Forall_forall. intros s Hs. rewrite Forall_forall in Hsemi, Hchar.
    split; auto. }
  clear Hsemi Hchar.
  destruct (Py.split ";" txt) as [|s0 rest0] eqn:Hsegs;
    [now apply split_not_nil in Hsegs|].
  destruct (positional (KEYLESS_ENTRIES Patch.config) (s0 :: rest0))
    as [assigned rest] eqn:Hpos.
  rewrite (from_string_steps Patch.config txt assigned rest) in Hparse
    by (unfold SEPARATOR_DICT; now rewrite Hsegs).
  apply bind_ok in Hparse as (keyed & Hkeyed & Hparse).
  apply bind_ok in Hparse as (u & Hvalid & [= <-]).
  apply validate_cases in Hvalid.
  pose proof (validate_ok _ _ _ Hvalid) as Hkeys.
  apply explicit_ok in Hkeyed.
  assert (Hall : assigned ++ keyed <> [] /\
                 forall k s, In (k, s) (assigned ++ keyed) ->
                   (k = "filename" \/ k = "level" \/ k = "dest") /\ clean s).
  { change (KEYLESS_ENTRIES Patch.config) with Patch.KEYLESS_ENTRIES in Hpos.
    rewrite patch_positional in Hpos.
    inversion Hclean as [|? ? Hs0 Hrest0]; subst.
    destruct (has_colon s0); injection Hpos as <- <-.
    - pose proof (keyed_values_clean _ _ Hclean Hkeyed) as Hvals.
      split.
      + inversion Hkeyed; discriminate.
      + simpl. intros k s Hin. split.
        * apply allowed_key_cases. now apply (Hkeys (k, s)).
        * rewrite Forall_forall in Hvals. now apply (Hvals (k, s)).
    - pose proof (keyed_values_clean _ _ Hrest0 Hkeyed) as Hvals.
      split; [discriminate|].
      simpl. intros k s [[= <- <-] | Hin].
      + split; [now left | assumption].
      + split.
        * apply allowed_key_cases. now apply (Hkeys (k, s)).
        * rewrite Forall_forall in Hvals. now apply (Hvals (k, s)). }
  destruct Hall as [Hne Hall].
  split; [apply build_keys_nodup|]. split; [now apply build_not_empty|].
  intros k v Hin. apply build_entries in Hin as (s & -> & Hin).
  exists s. split; [reflexivity|]. now apply Hall.
Qed.

Lemma int_ok_is_Int old new : Py.int old = Ok new -> exists n, new = Py.Int n.
Proof.
  destruct old as [s|n]; simpl.
  - destruct (Py.int_of_str s); [intros [= <-]; eauto | discriminate].
  - intros [= <-]. eauto.
Qed.

(** Every value the parser returns has the shape [patch_value]. *)
Lemma patch_parse_value txt x :
  Forall (fun s => Py.contains c s = false) (Py.split ";" txt) ->
  Patch._from_string txt = Ok x -> patch_value c x.
Proof.
  intros Hc Hparse. unfold Patch._from_string in Hparse.
  destruct (_from_string Patch.config txt) as [e|res] eqn:Hbase.
  { unfold Patch._from_string_over in Hparse. rewrite Hbase in Hparse. discriminate. }
  destruct (dict_parse_entries txt res Hc Hbase) as (Hnd & Hne & Hentries).
  destruct (patch_result_shape _ txt res Hbase x Hparse)
    as [[-> Hmem] | (old & new & Hold & Hint & ->)].
  - constructor; trivial.
    apply Forall_forall. intros [k v] Hin.
    destruct (Hentries k v Hin) as (s & -> & Hk & Hs1 & Hs2).
    unfold patch_entry. simpl. repeat split; trivial.
    destruct Hk as [-> | [-> | ->]]; auto.
    apply mem_false_get, get_None_not_in in Hmem.
    exfalso. apply Hmem. now apply (in_map fst) in Hin.
  - destruct (int_ok_is_Int _ _ Hint) as (n & ->).
    constructor.
    + now apply set_keys_nodup.
    + destruct res as [|[k' v'] res]; simpl; [discriminate|].
      destruct (String.eqb k' "level"); discriminate.
    + apply Forall_forall. intros [k v] Hin.
      apply In_set in Hin; [|assumption].
      destruct Hin as [[-> ->] | [Hk Hin]].
      { split; [reflexivity|]. apply get_In in Hold.
        destruct (Hentries _ _ Hold) as (s & -> & _).
        simpl in Hint. destruct (Py.int_of_str s) as [m|] eqn:Hs; [|discriminate].
        injection Hint as <-. exact (int_of_str_printed s m Hs). }
      destruct (Hentries k v Hin) as (s & -> & Hk' & Hs1 & Hs2).
      unfold patch_entry. simpl. repeat split; trivial.
      destruct Hk' as [-> | [-> | ->]]; auto. congruence.
Qed.
End PatchValues.

(** ** Printing a [Patch] and reading it back *)

Section PrintedIntegers.
Lemma nilzero_string_of_uint u :
  u <> Nil -> NilZero.string_of_uint u = NilEmpty.string_of_uint u.
Proof. destruct u; congruence || reflexivity. Qed.

Lemma str_of_int_chars n :
  all_chars (fun a => Py.isdigit a || Ascii.eqb a "-") (Py.str_of_int n) = true.
Proof.
  assert (Hd : forall u, all_chars (fun a => Py.isdigit a || Ascii.eqb a "-")
                           (NilEmpty.string_of_uint u) = true).
  { intros u. apply all_chars_impl with (p := Py.isdigit);
      [intros a ->; reflexivity | apply string_of_uint_digits]. }
  unfold Py.str_of_int. destruct n as [|p|p]; [reflexivity| |]; simpl;
    rewrite nilzero_string_of_uint by apply Unsigned.to_uint_nonnil; auto.
Qed.

Lemma str_of_int_free c n :
  Py.isdigit c = false -> c <> "-"%char -> Py.contains c (Py.str_of_int n) = false.
Proof.
  intros Hc Hm. rewrite contains_all_chars. apply negb_false_iff.
  apply all_chars_impl with (2 := str_of_int_chars n).
  intros a Ha. apply negb_true_iff. destruct (Ascii.eqb_spec a c) as [->|]; [|reflexivity].
  rewrite Hc in Ha. simpl in Ha. apply Ascii.eqb_eq in Ha. contradiction.
Qed.
End PrintedIntegers.

Section DictMaps.
Context {A B : Type}.

Lemma get_map_values (g : A -> B) (d : dict A) k :
  PyDict.get k (map (fun kv => (fst kv, g (snd kv))) d)
  = option_map g (PyDict.get k d).
Proof.
  induction d as [|[k' v'] d IH]; simpl; [reflexivity|].
  now destruct (String.eqb k' k).
Qed.

Lemma keys_map_values (g : A -> B) (d : dict A) :
  map fst (map (fun kv => (fst kv, g (snd kv))) d) = PyDict.keys d.
Proof. unfold PyDict.keys. rewrite map_map. reflexivity. Qed.

Lemma get_filter_removed (d : dict A) k (keep : string -> bool) :
  keep k = false ->
  PyDict.get k (filter (fun kv => keep (fst kv)) d) = None.
Proof.
  intros Hk. induction d as [|[k' v'] d IH]; simpl; [reflexivity|].
  destruct (keep k') eqn:E; simpl; [|assumption].
  destruct (String.eqb_spec k' k) as [->|Hne]; [congruence | assumption].
Qed.

Lemma filter_all_kept (d : dict A) (keep : string -> bool) :
  (forall k, In k (PyDict.keys d) -> keep k = true) ->
  filter (fun kv => keep (fst kv)) d = d.
Proof.
  induction d as [|[k' v'] d IH]; simpl; [reflexivity|].
  intros H. rewrite (H k') by now left. f_equal. apply IH. auto.
Qed.
End DictMaps.

Section PatchRoundTrip.
Import DictOfStrings.
Variable c : ascii.
Hypothesis Hc : c = ";"%char \/ c = ","%char.
Variable x : dict Py.value.
Hypothesis Hx : patch_value c x.
Hypothesis Hplain : plain_filename x.

Let keep (k : string) : bool := negb (in_list k Patch.KEYLESS_ENTRIES).
Let others : dict Py.value := filter (fun kv => keep (fst kv)) x.
Let render (kv : string * Py.value) : string :=
  (fst kv ++ String SEPARATOR_KEY_VALUE (Py.str (snd kv)))%string.
Let printed (kv : string * Py.value) : string * string :=
  (fst kv, Py.str (snd kv)).
Let reread (v : Py.value) : Py.value := Py.Str (Py.str v).

Lemma entry_cases k v :
  In (k, v) x ->
  (k = "level" /\ exists n, v = Py.Int n) \/
  ((k = "filename" \/ k = "dest") /\
   exists s, v = Py.Str s /\ Py.contains ";" s = false /\ Py.contains c s = false).
Proof.
  intros Hin. destruct Hx as [_ _ Hentries]. rewrite Forall_forall in Hentries.
  specialize (Hentries _ Hin). unfold patch_entry in Hentries. simpl in Hentries.
  destruct v as [s|n]; [right | left]; intuition eauto.
Qed.

Lemma other_cases k v :
  In (k, v) others ->
  (k = "level" /\ exists n, v = Py.Int n) \/
  (k = "dest" /\
   exists s, v = Py.Str s /\ Py.contains ";" s = false /\ Py.contains c s = false).
Proof.
  intros Hin. apply filter_In in Hin as [Hin Hkeep].
  destruct (entry_cases k v Hin) as [H | [[-> | ->] H]]; auto.
  discriminate Hkeep.
Qed.

Lemma printed_keyed_part : keyed_part Patch.config x = map render others.
Proof. reflexivity. Qed.

Lemma render_free kv :
  In kv others ->
  Py.contains ";" (render kv) = false /\ Py.contains c (render kv) = false.
Proof.
  destruct kv as [k v]. intros Hin. unfold render. simpl.
  destruct (other_cases k v Hin) as [[-> (n & ->)] | [-> (s & -> & Hs1 & Hs2)]]; simpl.
  - split; [now apply str_of_int_free|].
    destruct Hc as [-> | ->]; simpl; now apply str_of_int_free.
  - split; [assumption|]. destruct Hc as [-> | ->]; simpl; assumption.
Qed.

Lemma render_has_colon kv : In kv others -> has_colon (render kv) = true.
Proof.
  destruct kv as [k v]. intros Hin.
  destruct (other_cases k v Hin) as [[-> _] | [-> _]]; reflexivity.
Qed.

Lemma explicit_rendered : explicit (map render others) = Ok (map printed others).
Proof.
  assert (H : forall kv, In kv others -> In kv others) by auto.
  revert H. generalize others at 1 3 4. intros l.
  induction l as [|[k v] l IH]; intros H; simpl; [reflexivity|].
  assert (Hk : Py.split_first SEPARATOR_KEY_VALUE (render (k, v)) = Some (printed (k, v))).
  { unfold render, printed. simpl. apply split_first_app.
    destruct (other_cases k v (H _ (or_introl eq_refl))) as [[-> _] | [-> _]]; reflexivity. }
  rewrite Hk. rewrite IH by (intros; apply H; now right). reflexivity.
Qed.

Lemma validate_rendered assigned :
  (forall kv, In kv assigned -> fst kv = "filename") ->
  validate Patch.config assigned (map printed others) = Ok tt.
Proof.
  intros Hassigned. unfold validate.
  assert (H1 : forallb (fun kv => in_list (fst kv) (allowed_key_set Patch.config))
                 (map printed others) = true).
  { apply forallb_forall. intros kv Hin. apply in_map_iff in Hin as ([k v] & <- & Hin).
    destruct (other_cases k v Hin) as [[-> _] | [-> _]]; reflexivity. }
  assert (H2 : forallb (fun kv => negb (in_list (fst kv) (map fst assigned)))
                 (map printed others) = true).
  { apply forallb_forall. intros kv Hin. apply in_map_iff in Hin as ([k v] & <- & Hin).
    apply negb_true_iff. unfold in_list.
    destruct (existsb _ (map fst assigned)) eqn:E; [|reflexivity].
    apply existsb_exists in E as (k' & Hk' & Heq). apply String.eqb_eq in Heq.
    apply in_map_iff in Hk' as (kv' & <- & Hkv'). rewrite (Hassigned _ Hkv') in Heq.
    simpl in Heq. subst k.
    destruct (other_cases _ v Hin) as [[? _] | [? _]]; discriminate. }
  now rewrite H1, H2.
Qed.

Lemma others_keys_nodup : NoDup (PyDict.keys others).
Proof. apply filter_keys_nodup. now destruct Hx. Qed.

Lemma others_no_filename : ~ In "filename" (PyDict.keys others).
Proof.
  intros Hin. apply in_map_iff in Hin as ([k v] & Hk & Hin). simpl in Hk. subst k.
  destruct (other_cases _ v Hin) as [[? _] | [? _]]; discriminate.
Qed.

Lemma get_others k : k <> "filename" -> PyDict.get k others = PyDict.get k x.
Proof.
  intros Hk. apply (get_filter_other x k keep).
  unfold keep. simpl. rewrite orb_false_r.
  apply negb_true_iff. now apply String.eqb_neq.
Qed.
Lemma filename_cases :
  (exists f, PyDict.get "filename" x = Some (Py.Str f) /\
             has_colon f = false /\ Py.contains ";" f = false /\
             Py.contains c f = false) \/
  PyDict.get "filename" x = None.
Proof.
  destruct (PyDict.get "filename" x) as [v|] eqn:E; [left | now right].
  destruct (entry_cases _ _ (get_In _ _ _ E)) as [[? _] | [_ (s & -> & Hs1 & Hs2)]];
    [discriminate|].
  exists s. repeat split; trivial. now apply Hplain.
Qed.

Let assigned : list (string * string) :=
  match PyDict.get "filename" x with
  | Some v => [("filename", Py.str v)]
  | None => []
  end.

Let reparsed : dict Py.value :=
  map (fun kv => (fst kv, Py.Str (snd kv))) (assigned ++ map printed others).

Lemma printed_segments :
  Patch.__str__ x = Py.join ";" (map snd assigned ++ map render others).
Proof.
  unfold Patch.__str__, __str__, keyless_part, assigned. simpl.
  rewrite app_nil_r. now destruct (PyDict.get "filename" x).
Qed.

Lemma printed_segments_free :
  Forall (fun s => Py.contains ";" s = false /\ Py.contains c s = false)
    (map snd assigned ++ map render others).
Proof.
  apply Forall_app. split.
  - unfold assigned. destruct filename_cases as [(f & -> & _ & H1 & H2) | ->];
      repeat constructor; assumption.
  - apply Forall_forall. intros s Hs. apply in_map_iff in Hs as (kv & <- & Hin).
    now apply render_free.
Qed.

Lemma printed_segments_not_nil : map snd assigned ++ map render others <> [].
Proof.
  unfold assigned. destruct filename_cases as [(f & -> & _) | Hnone].
  - discriminate.
  - rewrite Hnone. simpl. unfold others.
    rewrite filter_all_kept.
    + destruct Hx as [_ Hne _]. destruct x; [congruence | discriminate].
    + intros k Hk. unfold keep. simpl. rewrite orb_false_r.
      apply negb_true_iff, String.eqb_neq. intros ->.
      apply get_None_not_in in Hnone. contradiction.
Qed.

Lemma printed_segments_split :
  Py.split ";" (Patch.__str__ x) = map snd assigned ++ map render others.
Proof.
  rewrite printed_segments.
  apply split_join; [apply printed_segments_not_nil|].
  apply Forall_impl with (2 := printed_segments_free). tauto.
Qed.

Lemma printed_free : c <> ";"%char -> Py.contains c (Patch.__str__ x) = false.
Proof.
  intros Hsep. rewrite printed_segments.
  induction printed_segments_free as [|s0 l [_ H0] Hfree IH]; [reflexivity|].
  destruct l as [|s1 l]; [assumption|].
  change (Py.join ";" (s0 :: s1 :: l))
    with (s0 ++ String ";" (Py.join ";" (s1 :: l)))%string.
  rewrite contains_app, H0.
  change (Py.contains c (String ";" (Py.join ";" (s1 :: l))))
    with (Ascii.eqb ";" c || Py.contains c (Py.join ";" (s1 :: l))).
  apply not_eq_sym, Ascii.eqb_neq in Hsep. rewrite Hsep. exact IH.
Qed.

Lemma printed_positional :
  positional Patch.KEYLESS_ENTRIES (map snd assigned ++ map render others)
  = (assigned, map render others).
Proof.
  unfold assigned. destruct filename_cases as [(f & -> & Hf & _) | Hnone].
  - change (positional Patch.KEYLESS_ENTRIES (f :: map render others)
            = ([("filename", f)], map render others)).
    rewrite patch_positional. now rewrite Hf.
  - rewrite Hnone.
    change (positional Patch.KEYLESS_ENTRIES (map render others)
            = ([], map render others)).
    pose proof printed_segments_not_nil as Hne. unfold assigned in Hne.
    rewrite Hnone in Hne. simpl in Hne.
    assert (Hlist : forall l,
              (forall kv, In kv l -> has_colon (render kv) = true) ->
              map render l <> [] ->
              positional Patch.KEYLESS_ENTRIES (map render l) = ([], map render l)).
    { intros [|kv l] Hcolon Hl; [now elim Hl|]. cbn [map].
      rewrite patch_positional. now rewrite (Hcolon kv) by now left. }
    apply Hlist; [apply render_has_colon | assumption].
Qed.

Lemma assigned_filename kv : In kv assigned -> fst kv = "filename".
Proof.
  unfold assigned. destruct (PyDict.get "filename" x); simpl; [|tauto].
  now intros [<- | []].
Qed.

Lemma reparsed_keys_nodup : NoDup (map fst (assigned ++ map printed others)).
Proof.
  rewrite map_app.
  replace (map fst (map printed others)) with (PyDict.keys others)
    by (unfold PyDict.keys; rewrite map_map; reflexivity).
  unfold assigned. destruct (PyDict.get "filename" x); simpl.
  - constructor; [apply others_no_filename | apply others_keys_nodup].
  - apply others_keys_nodup.
Qed.

Lemma base_of_printed :
  _from_string Patch.config (Patch.__str__ x) = Ok reparsed.
Proof.
  rewrite (from_string_steps Patch.config _ assigned (map render others)).
  - rewrite explicit_rendered. simpl bind.
    rewrite validate_rendered by apply assigned_filename. simpl bind.
    unfold reparsed. now rewrite build_unique_keys by apply reparsed_keys_nodup.
  - unfold SEPARATOR_DICT. rewrite printed_segments_split.
    apply printed_positional.
Qed.

Lemma get_reparsed k :
  PyDict.get k reparsed = option_map reread (PyDict.get k x).
Proof.
  unfold reparsed. rewrite (get_map_values Py.Str), get_app.
  change (map printed others)
    with (map (fun kv : string * Py.value => (fst kv, Py.str (snd kv))) others).
  rewrite (get_map_values Py.str).
  destruct (String.eqb_spec k "filename") as [->|Hk].
  - replace (PyDict.get "filename" others) with (@None Py.value)
      by (symmetry; apply get_None_not_in, others_no_filename).
    unfold assigned. now destruct (PyDict.get "filename" x).
  - rewrite get_others by assumption.
    assert (PyDict.get k assigned = None) as ->.
    { unfold assigned. destruct (PyDict.get "filename" x); [|reflexivity].
      cbn [PyDict.get]. apply not_eq_sym, String.eqb_neq in Hk. now rewrite Hk. }
    now destruct (PyDict.get k x).
Qed.

Lemma get_Int_level k n : PyDict.get k x = Some (Py.Int n) -> k = "level".
Proof.
  intros H. apply get_In in H.
  destruct (entry_cases _ _ H) as [[-> _] | [_ (s & Hs & _)]]; [reflexivity | discriminate].
Qed.

Lemma get_level_Int v : PyDict.get "level" x = Some v -> exists n, v = Py.Int n.
Proof.
  intros H. apply get_In in H.
  destruct (entry_cases _ _ H) as [[_ Hn] | [[?|?] _]]; [assumption | discriminate ..].
Qed.

Lemma level_printed n :
  PyDict.get "level" x = Some (Py.Int n) ->
  (Py.digit_count (Py.str_of_int n) <= Py.int_max_str_digits)%nat.
Proof.
  intros H. apply get_In in H.
  destruct Hx as [_ _ Hentries]. rewrite Forall_forall in Hentries.
  exact (proj2 (Hentries _ H)).
Qed.

(** Reading the printed form of [x] gives a dict equal to [x]. *)
Lemma patch_reread :
  exists y, Patch._from_string (Patch.__str__ x) = Ok y /\ PyDict.eq y x.
Proof.
  pose proof base_of_printed as Hbase.
  destruct (PyDict.get "level" x) as [v|] eqn:Hlevel.
  - destruct (get_level_Int v Hlevel) as (n & ->).
    exists (PyDict.set "level" (Py.Int n) reparsed). split.
    + unfold Patch._from_string.
      rewrite (patch_with_level _ _ _ Hbase (reread (Py.Int n)))
        by now rewrite get_reparsed, Hlevel.
      simpl. now rewrite (int_of_str_of_int n (level_printed n Hlevel)).
    + intros k. destruct (String.eqb_spec k "level") as [->|Hk].
      * now rewrite get_set_same.
      * rewrite get_set_other, get_reparsed by assumption.
        destruct (PyDict.get k x) as [[s|m]|] eqn:Hk'; try reflexivity.
        apply get_Int_level in Hk'. contradiction.
  - exists reparsed. split.
    + apply patch_without_level; [assumption|].
      unfold PyDict.mem. now rewrite get_reparsed, Hlevel.
    + intros k. rewrite get_reparsed.
      destruct (PyDict.get k x) as [[s|m]|] eqn:Hk'; try reflexivity.
      pose proof (get_Int_level _ _ Hk') as ->. congruence.
Qed.
End PatchRoundTrip.

(** ** Printing [Patches] and [Dependency] values and reading them back *)

Section ComprehensionMap.
Context {A B : Type}.
Variable construct : string -> result A.
Variable print : B -> string.
Variable R : A -> B -> Prop.

Lemma comprehension_map xs :
  Forall (fun x => exists y, construct (print x) = Ok y /\ R y x) xs ->
  exists ys, Patches.comprehension construct (map print xs) = (map print xs, Ok ys) /\
             Forall2 R ys xs.
Proof.
  induction 1 as [|x xs (y & Hy & Hr) _ (ys & IH & HF)]; simpl.
  - exists []. split; constructor.
  - rewrite Hy, IH. exists (y :: ys). split; [reflexivity | now constructor].
Qed.
End ComprehensionMap.

Lemma join_free (c sep : ascii) (l : list string) :
  c <> sep -> Forall (fun s => Py.contains c s = false) l ->
  Py.contains c (Py.join sep l) = false.
Proof.
  intros Hsep. induction 1 as [|s0 l H0 Hl IH]; [reflexivity|].
  destruct l as [|s1 l]; [assumption|].
  change (Py.join sep (s0 :: s1 :: l))
    with (s0 ++ String sep (Py.join sep (s1 :: l)))%string.
  rewrite contains_app, H0.
  change (Py.contains c (String sep (Py.join sep (s1 :: l))))
    with (Ascii.eqb sep c || Py.contains c (Py.join sep (s1 :: l))).
  apply not_eq_sym, Ascii.eqb_neq in Hsep. now rewrite Hsep.
Qed.

Lemma patches_parse_values txt xs :
  Patches._from_string txt = Ok xs ->
  xs <> [] /\ Forall (patch_value ",") xs.
Proof.
  intros H. apply patches_segments_parsed in H.
  pose proof (split_segments_no_sep "," txt) as Hsegs.
  pose proof (split_not_nil "," txt) as Hne.
  induction H as [|seg x segs xs Hx Htail IH].
  - congruence.
  - inversion Hsegs as [|? ? Hseg Hsegs']; subst. split; [discriminate|].
    constructor;
      [apply (patch_parse_value "," seg); [now apply split_segments_no_char | assumption]|].
    destruct segs as [|seg' segs]; [inversion Htail; constructor|].
    apply IH; [assumption | discriminate].
Qed.

Lemma patches_reread xs :
  xs <> [] -> Forall (patch_value ",") xs -> Forall plain_filename xs ->
  exists ys, Patches._from_string (Patches.__str__ xs) = Ok ys /\
             Forall2 PyDict.eq ys xs.
Proof.
  intros Hne Hvalues Hplain.
  assert (Hsplit : Py.split "," (Patches.__str__ xs) = map Patch.__str__ xs).
  { apply split_join.
    - destruct xs; [congruence | discriminate].
    - apply Forall_forall. intros s Hs. apply in_map_iff in Hs as (x & <- & Hx).
      rewrite Forall_forall in Hvalues, Hplain.
      apply (printed_free ","); auto. discriminate. }
  assert (Heach : Forall (fun x => exists y, Patch.new (Patch.__str__ x) = Ok y /\
                                             PyDict.eq y x) xs).
  { apply Forall_forall. intros x Hx. rewrite Forall_forall in Hvalues, Hplain.
    apply (patch_reread ","); auto. }
  destruct (comprehension_map Patch.new Patch.__str__ PyDict.eq xs Heach)
    as (ys & Hys & HF).
  exists ys. split; [|assumption].
  unfold Patches._from_string, Patches._from_string_traced,
    ListOfStrings._from_string, Convert._split_string.
  change (Py.split ListOfStrings.SEPARATOR_LIST (Patches.__str__ xs))
    with (Py.split "," (Patches.__str__ xs)).
  now rewrite Hsplit, Hys.
Qed.

Section DependencyRoundTrip.
Variables VT TT : Type.
Variable VersionOperator : string -> result VT.
Variable ToolchainVersionOperator : string -> result TT.
Variable str_versop : VT -> string.
Variable str_tc_versop : TT -> string.

Let parse := Dependency._from_string VT TT VersionOperator ToolchainVersionOperator.
Let print := Dependency.__str__ VT TT str_versop str_tc_versop.

Lemma dependency_shape txt x :
  parse txt = Ok x ->
  (exists v, x = [("versop", Dependency.VersOp v)]) \/
  (exists v t, x = [("versop", Dependency.VersOp v);
                    ("tc_versop", Dependency.TcVersOp t)]).
Proof.
  unfold parse, Dependency._from_string.
  destruct (Convert._split_string txt Dependency.SEPARATOR_DEP) as [|a [|b [|c l]]];
    simpl; try discriminate.
  - destruct (VersionOperator a) as [e|v]; simpl; [discriminate|].
    intros [= <-]. left. eauto.
  - destruct (VersionOperator a) as [e|v]; simpl; [discriminate|].
    destruct (ToolchainVersionOperator b) as [e|t]; simpl; [discriminate|].
    intros [= <-]. right. eauto.
Qed.

Lemma dependency_reread_one v :
  VersionOperator (str_versop v) = Ok v ->
  Py.contains ";" (str_versop v) = false ->
  let x := [("versop", Dependency.VersOp v)] in
  print x = Ok (str_versop v) /\ parse (str_versop v) = Ok x.
Proof.
  intros Hv Hfree x. split; [reflexivity|].
  unfold parse. rewrite (dependency_one _ _ _ _ (str_versop v)).
  - now rewrite Hv.
  - now apply split_no_sep.
Qed.

Lemma dependency_reread_two v t :
  VersionOperator (str_versop v) = Ok v ->
  Py.contains ";" (str_versop v) = false ->
  ToolchainVersionOperator (str_tc_versop t) = Ok t ->
  Py.contains ";" (str_tc_versop t) = false ->
  let x := [("versop", Dependency.VersOp v); ("tc_versop", Dependency.TcVersOp t)] in
  print x = Ok (str_versop v ++ String ";" (str_tc_versop t))%string /\
  parse (str_versop v ++ String ";" (str_tc_versop t)) = Ok x.
Proof.
  intros Hv Hvfree Ht Htfree x. split; [reflexivity|].
  unfold parse.
  rewrite (dependency_two _ _ _ _ (str_versop v) (str_tc_versop t)).
  - rewrite Hv. simpl. now rewrite Ht.
  - unfold Convert._split_string, Dependency.SEPARATOR_DEP.
    rewrite split_app by assumption. now rewrite split_no_sep.
Qed.
End DependencyRoundTrip.

(** ** The ['level'] segment of the input and the ['level'] entry *)

Section LevelSegment.
Import DictOfStrings.

Lemma Forall2_In_r {A B : Type} (R : A -> B -> Prop) l l' b :
  Forall2 R l l' -> In b l' -> exists a, In a l /\ R a b.
Proof.
  induction 1 as [|x y l l' Hxy _ IH]; simpl; [tauto|].
  intros [->|H]; [eauto | destruct (IH H) as (a & ? & ?); eauto].
Qed.

(** The steps a successful parse went through. *)
Lemma patch_base_steps txt res :
  _from_string Patch.config txt = Ok res ->
  exists assigned rest keyed,
    res = build (assigned ++ keyed) /\
    Forall2 (fun s kv => Py.split_first ":" s = Some kv) rest keyed /\
    (forall kv, In kv assigned -> fst kv = "filename") /\
    (exists first, Py.split ";" txt = first ++ rest /\
                   Forall (fun s => has_colon s = false) first).
Proof.
  intros Hparse.
  destruct (Py.split ";" txt) as [|s0 rest0] eqn:Hsegs;
    [now apply split_not_nil in Hsegs|].
  destruct (positional (KEYLESS_ENTRIES Patch.config) (s0 :: rest0))
    as [assigned rest] eqn:Hpos.
  rewrite (from_string_steps Patch.config txt assigned rest) in Hparse
    by (unfold SEPARATOR_DICT; now rewrite Hsegs).
  apply bind_ok in Hparse as (keyed & Hkeyed & Hparse).
  apply bind_ok in Hparse as (u & _ & [= <-]).
  apply explicit_ok in Hkeyed.
  exists assigned, rest, keyed. split; [reflexivity|]. split; [assumption|].
  change (KEYLESS_ENTRIES Patch.config) with Patch.KEYLESS_ENTRIES in Hpos.
  rewrite patch_positional in Hpos.
  destruct (has_colon s0) eqn:Hs0; injection Hpos as <- <-.
  - split; [intros kv []|]. exists []. now split.
  - split; [intros kv [<-|[]]; reflexivity|].
    exists [s0]. split; [reflexivity | now repeat constructor].
Qed.

Lemma get_rev_absent {V : Type} (d : dict V) k :
  (forall kv, In kv d -> fst kv <> k) -> PyDict.get k (List.rev d) = None.
Proof.
  intros H. apply get_None_not_in. intros Hin.
  apply in_map_iff in Hin as (kv & Hk & Hkv). apply in_rev in Hkv.
  now apply (H kv).
Qed.

Lemma fold_get kvs k : forall acc,
  PyDict.get k (fold_left (fun d kv => PyDict.set (fst kv) (Py.Str (snd kv)) d) kvs acc)
  = match PyDict.get k (List.rev kvs) with
    | Some s => Some (Py.Str s)
    | None => PyDict.get k acc
    end.
Proof.
  induction kvs as [|[k0 s0] kvs IH]; intros acc; simpl; [reflexivity|].
  rewrite IH, get_app. destruct (PyDict.get k (List.rev kvs)); [reflexivity|].
  simpl. destruct (String.eqb_spec k0 k) as [->|Hne].
  - apply get_set_same.
  - apply get_set_other. congruence.
Qed.

(** An entry of the mapping is the value of the last segment with its
    key. *)
Lemma build_get kvs k :
  PyDict.get k (build kvs) = option_map Py.Str (PyDict.get k (List.rev kvs)).
Proof.
  unfold build. rewrite fold_get. now destruct (PyDict.get k (List.rev kvs)).
Qed.

Lemma level_segment_entry txt v res :
  level_segment txt v ->
  _from_string Patch.config txt = Ok res ->
  PyDict.get "level" res = Some (Py.Str v).
Proof.
  intros (pre & seg & post & Hsegs & Hseg & Hpost) Hparse.
  destruct (patch_base_steps txt res Hparse)
    as (assigned & rest & keyed & -> & Hkeyed & Hassigned & first & Hsplit & Hfirst).
  (* the segment lies among the keyed ones *)
  assert (Hrest : exists pre', rest = pre' ++ seg :: post).
  { rewrite Hsegs in Hsplit. clear - Hsplit Hfirst Hseg.
    revert pre Hsplit. induction Hfirst as [|s first Hs _ IH]; intros pre Hsplit.
    - simpl in Hsplit. eauto.
    - destruct pre as [|p pre]; simpl in Hsplit; injection Hsplit as -> Hsplit.
      + apply split_first_contains in Hseg. unfold has_colon in Hs.
        unfold SEPARATOR_KEY_VALUE in Hs. congruence.
      + eauto. }
  destruct Hrest as (pre' & ->).
  apply Forall2_app_inv_l in Hkeyed as (kpre & ktail & _ & Htail & ->).
  inversion Htail as [|? kv ? kpost Hkv Hkpost]; subst.
  assert (kv = ("level", v)) as -> by congruence.
  rewrite build_get, !rev_app_distr. simpl. rewrite <- !app_assoc, get_app.
  rewrite get_rev_absent; [reflexivity|].
  intros [k s] Hin Hk. simpl in Hk. subst k.
  destruct (Forall2_In_r _ _ _ _ Hkpost Hin) as (a & Ha & Hsplit').
  rewrite Forall_forall in Hpost. now apply (Hpost a Ha s).
Qed.

Lemma no_level_segment_entry txt res :
  no_level_segment txt ->
  _from_string Patch.config txt = Ok res ->
  PyDict.mem "level" res = false.
Proof.
  intros Hnone Hparse.
  destruct (patch_base_steps txt res Hparse)
    as (assigned & rest & keyed & -> & Hkeyed & Hassigned & first & Hsplit & _).
  unfold PyDict.mem. destruct (PyDict.get "level" (build (assigned ++ keyed))) eqn:E;
    [exfalso | reflexivity].
  apply get_In, build_entries in E as (s & _ & Hin).
  apply in_app_iff in Hin as [Hin | Hin].
  - apply Hassigned in Hin. discriminate.
  - destruct (Forall2_In_r _ _ _ _ Hkeyed Hin) as (a & Ha & Hsplit').
    unfold no_level_segment in Hnone. rewrite Hsplit, Forall_forall in Hnone.
    apply (Hnone a (proj2 (in_app_iff _ _ _) (or_intror Ha)) s Hsplit').
Qed.
End LevelSegment.

(** * The properties of the specification *)

(** C1 does not hold for every [Patch] value: the parser returns a filename
    with [":"] from the fully keyed form, its string form writes the filename
    positionally, and reading that back fails on the unknown key before the
    [":"]. *)
Lemma patch_roundtrip_fails :
  Patch._from_string "filename:a:b" = Ok [("filename", Py.Str "a:b")] /\
  Patch.__str__ [("filename", Py.Str "a:b")] = "a:b" /\
  Patch._from_string (Patch.__str__ [("filename", Py.Str "a:b")])
  = Raise ValidationError.
Proof. repeat split. Qed.

(** C1, amended: re-parsing the string form of a parsed value gives an equal
    value for every [Patch] the parser returns whose filename contains no
    [":"], for every [Patches] the parser returns whose elements have such
    filenames, and for every [Dependency] the parser returns whose version
    operators are read back from their own string forms by the external
    parsers and print without [";"]. *)
Theorem roundtrip :
  (forall txt x,
     Patch._from_string txt = Ok x -> plain_filename x ->
     exists y, Patch._from_string (Patch.__str__ x) = Ok y /\ PyDict.eq y x) /\
  (forall txt xs,
     Patches._from_string txt = Ok xs -> Forall plain_filename xs ->
     exists ys, Patches._from_string (Patches.__str__ xs) = Ok ys /\
                Forall2 PyDict.eq ys xs) /\
  (forall (VT TT : Type) (VersionOperator : string -> result VT)
          (ToolchainVersionOperator : string -> result TT)
          (str_versop : VT -> string) (str_tc_versop : TT -> string) txt x,
     Dependency._from_string VT TT VersionOperator ToolchainVersionOperator txt = Ok x ->
     (forall v, PyDict.get "versop" x = Some (Dependency.VersOp v) ->
        VersionOperator (str_versop v) = Ok v /\
        Py.contains ";" (str_versop v) = false) ->
     (forall t, PyDict.get "tc_versop" x = Some (Dependency.TcVersOp t) ->
        ToolchainVersionOperator (str_tc_versop t) = Ok t /\
        Py.contains ";" (str_tc_versop t) = false) ->
     exists s,
       Dependency.__str__ VT TT str_versop str_tc_versop x = Ok s /\
       Dependency._from_string VT TT VersionOperator ToolchainVersionOperator s = Ok x).
Proof.
  split; [|split].
  - intros txt x Hparse Hplain.
    apply (patch_reread ";"); [now left | | assumption].
    apply (patch_parse_value ";" txt); [apply split_segments_no_sep | assumption].
  - intros txt xs Hparse Hplain.
    destruct (patches_parse_values txt xs Hparse) as [Hne Hvalues].
    now apply patches_reread.
  - intros VT TT VO TVO sv st txt x Hparse Hv Ht.
    destruct (dependency_shape _ _ _ _ txt x Hparse) as [(v & ->) | (v & t & ->)].
    + destruct (Hv v eq_refl) as [Hv1 Hv2].
      exists (sv v). now apply dependency_reread_one.
    + destruct (Hv v eq_refl) as [Hv1 Hv2]. destruct (Ht t eq_refl) as [Ht1 Ht2].
      exists (sv v ++ String ";" (st t))%string. now apply dependency_reread_two.
Qed.

Lemma roundtrip_witness :
  (exists y, Patch._from_string
               (Patch.__str__ [("level", Py.Int 1); ("filename", Py.Str "a.patch")])
             = Ok y /\
             PyDict.eq y [("level", Py.Int 1); ("filename", Py.Str "a.patch")]) /\
  (exists ys, Patches._from_string
                (Patches.__str__ [[("filename", Py.Str "a.patch")];
                                  [("filename", Py.Str "b.patch"); ("level", Py.Int 1)]])
              = Ok ys /\
              Forall2 PyDict.eq ys
                [[("filename", Py.Str "a.patch")];
                 [("filename", Py.Str "b.patch"); ("level", Py.Int 1)]]) /\
  (exists s, Dependency.__str__ string string (fun v => v) (fun t => t)
               [("versop", Dependency.VersOp "1.2.3");
                ("tc_versop", Dependency.TcVersOp ">=2020a")] = Ok s /\
             Dependency._from_string string string accept_all accept_all s
             = Ok [("versop", Dependency.VersOp "1.2.3");
                   ("tc_versop", Dependency.TcVersOp ">=2020a")]).
Proof.
  split; [|split].
  - apply (proj1 roundtrip "level:1;filename:a.patch").
    + reflexivity.
    + intros f [= <-]. reflexivity.
  - apply (proj1 (proj2 roundtrip) "a.patch,b.patch;level:1").
    + reflexivity.
    + repeat constructor; intros f [= <-]; reflexivity.
  - apply (proj2 (proj2 roundtrip) string string accept_all accept_all
             (fun v => v) (fun t => t) "1.2.3;>=2020a").
    + reflexivity.
    + intros v [= <-]. split; reflexivity.
    + intros t [= <-]. split; reflexivity.
Defined.

(** C3: a [Dependency] string with exactly one [";"]-separated segment
    parses to a mapping that holds ['versop'], the external version operator
    built from that segment, and no ['tc_versop']; with exactly two segments
    the mapping holds both ['versop'] (from the first segment) and
    ['tc_versop'], the external toolchain version operator built from the
    second segment. *)
Theorem dependency_fields
    (VT TT : Type) (VersionOperator : string -> result VT)
    (ToolchainVersionOperator : string -> result TT) (txt : string) :
  let parse := Dependency._from_string VT TT VersionOperator ToolchainVersionOperator in
  let items := Convert._split_string txt Dependency.SEPARATOR_DEP in
  (length items = 1%nat ->
   forall v, VersionOperator (nth 0 items "") = Ok v ->
   exists res, parse txt = Ok res /\
     PyDict.get "versop" res = Some (Dependency.VersOp v) /\
     PyDict.mem "tc_versop" res = false) /\
  (length items = 2%nat ->
   forall v t, VersionOperator (nth 0 items "") = Ok v ->
     ToolchainVersionOperator (nth 1 items "") = Ok t ->
   exists res, parse txt = Ok res /\
     PyDict.get "versop" res = Some (Dependency.VersOp v) /\
     PyDict.get "tc_versop" res = Some (Dependency.TcVersOp t)).
Proof.
  intros parse items. split.
  - intros Hlen v Hv.
    destruct items as [|a [|b l]] eqn:E; try discriminate.
    simpl in Hv. exists [("versop", Dependency.VersOp v)].
    unfold parse. rewrite (dependency_one _ _ _ _ a txt E), Hv.
    repeat split; reflexivity.
  - intros Hlen v t Hv Ht.
    destruct items as [|a [|b [|c l]]] eqn:E; try discriminate.
    simpl in Hv, Ht.
    exists [("versop", Dependency.VersOp v); ("tc_versop", Dependency.TcVersOp t)].
    unfold parse. rewrite (dependency_two _ _ _ _ a b txt E), Hv. simpl. rewrite Ht.
    repeat split; reflexivity.
Qed.

Lemma dependency_fields_witness :
  (exists res, Dependency._from_string string string accept_all accept_all "1.2.3" = Ok res /\
     PyDict.get "versop" res = Some (Dependency.VersOp "1.2.3") /\
     PyDict.mem "tc_versop" res = false) /\
  (exists res, Dependency._from_string string string accept_all accept_all "1.2.3;>=2020a" = Ok res /\
     PyDict.get "versop" res = Some (Dependency.VersOp "1.2.3") /\
     PyDict.get "tc_versop" res = Some (Dependency.TcVersOp ">=2020a")).
Proof.
  split.
  - apply (proj1 (dependency_fields string string accept_all accept_all "1.2.3"));
      reflexivity.
  - apply (proj2 (dependency_fields string string accept_all accept_all "1.2.3;>=2020a"));
      reflexivity.
Defined.

(** C4 does not hold for every decimal numeral: [int] converts no text
    with more digits than the interpreter's limit, so a ['level'] segment
    that carries a numeral of 4301 digits makes the parse fail with
    [ValueError] instead of giving an integer entry. *)
Lemma patch_level_numeral_too_long :
  level_segment ("a.patch;level:" ++ long_numeral) long_numeral /\
  (exists n, decimal_numeral long_numeral n) /\
  String.length long_numeral = 4301%nat /\
  Patch._from_string ("a.patch;level:" ++ long_numeral) = Raise ValueError.
Proof.
  split; [|split; [|split]].
  - exists ["a.patch"], ("level:" ++ long_numeral)%string, [].
    split; [vm_compute; reflexivity|]. split; [vm_compute; reflexivity|].
    constructor.
  - exists (Z.of_uint (Nat.iter 4301 D1 Nil)), (Nat.iter 4301 D1 Nil).
    split; [vm_compute; reflexivity|]. split; [|reflexivity].
    change (Nat.iter 4301 D1 Nil) with (D1 (Nat.iter 4300 D1 Nil)). discriminate.
  - vm_compute. reflexivity.
  - vm_compute. reflexivity.
Qed.

(** C4, amended: a ['level'] segment whose value is a decimal numeral of at
    most 4300 digits, the limit of [int] on the digits of a text, gives a
    ['level'] entry that is the integer the numeral denotes, an integer and
    not a string.  First over any inherited parser, in terms of the
    ['level'] entry that parser produced; then for the input string itself:
    when the ['level'] segment of the input carries such a numeral and the
    inherited dict parse succeeds, the [Patch] parse succeeds with that
    integer under ['level'].  A numeral with more digits makes the parse
    fail with [ValueError]. *)
Theorem patch_level_is_integer :
  (forall (base : string -> result (dict Py.value)) txt res s n,
     base txt = Ok res ->
     PyDict.get "level" res = Some (Py.Str s) ->
     decimal_numeral s n ->
     (String.length s <= Py.int_max_str_digits)%nat ->
     exists out, Patch._from_string_over base txt = Ok out /\
                 PyDict.get "level" out = Some (Py.Int n)) /\
  (forall txt v n res,
     level_segment txt v ->
     decimal_numeral v n ->
     (String.length v <= Py.int_max_str_digits)%nat ->
     DictOfStrings._from_string Patch.config txt = Ok res ->
     exists out, Patch._from_string txt = Ok out /\
                 PyDict.get "level" out = Some (Py.Int n)) /\
  (forall (base : string -> result (dict Py.value)) txt res s n,
     base txt = Ok res ->
     PyDict.get "level" res = Some (Py.Str s) ->
     decimal_numeral s n ->
     (Py.int_max_str_digits < String.length s)%nat ->
     Patch._from_string_over base txt = Raise ValueError).
Proof.
  assert (Hover : forall (base : string -> result (dict Py.value)) txt res s n,
            base txt = Ok res ->
            PyDict.get "level" res = Some (Py.Str s) ->
            decimal_numeral s n ->
            (String.length s <= Py.int_max_str_digits)%nat ->
            exists out, Patch._from_string_over base txt = Ok out /\
                        PyDict.get "level" out = Some (Py.Int n)).
  { intros base txt res s n Hbase Hlevel Hnum Hlen.
    exists (PyDict.set "level" (Py.Int n) res). split.
    - rewrite (patch_with_level base txt res Hbase _ Hlevel). simpl.
      now rewrite (int_of_str_decimal s n Hnum Hlen).
    - apply get_set_same. }
  split; [exact Hover|]. split.
  - intros txt v n res Hseg Hnum Hlen Hbase.
    apply (Hover _ txt res v n Hbase); [|assumption ..].
    now apply (level_segment_entry txt).
  - intros base txt res s n Hbase Hlevel Hnum Hlen.
    rewrite (patch_with_level base txt res Hbase _ Hlevel). simpl.
    unfold Py.int_of_str. rewrite (decimal_numeral_digits s n Hnum).
    destruct (Nat.leb_spec (String.length s) Py.int_max_str_digits); [lia | reflexivity].
Qed.

Lemma patch_level_is_integer_witness :
  (exists out, Patch._from_string "a.patch;level:2" = Ok out /\
               PyDict.get "level" out = Some (Py.Int 2)) /\
  (exists out, Patch._from_string "a.patch;level:7;level:02;dest:/tmp" = Ok out /\
               PyDict.get "level" out = Some (Py.Int 2)).
Proof.
  split.
  - apply (proj1 patch_level_is_integer (DictOfStrings._from_string Patch.config)
             "a.patch;level:2" [("filename", Py.Str "a.patch"); ("level", Py.Str "2")]
             "2" 2%Z).
    + reflexivity.
    + reflexivity.
    + exists (D2 Nil). repeat split. discriminate.
    + apply Nat.leb_le. vm_compute. reflexivity.
  - apply (proj1 (proj2 patch_level_is_integer)
             "a.patch;level:7;level:02;dest:/tmp" "02" 2%Z
             [("filename", Py.Str "a.patch"); ("level", Py.Str "02");
              ("dest", Py.Str "/tmp")]).
    + exists ["a.patch"; "level:7"], "level:02", ["dest:/tmp"].
      repeat split. repeat constructor; discriminate.
    + exists (D0 (D2 Nil)). repeat split. discriminate.
    + apply Nat.leb_le. vm_compute. reflexivity.
    + reflexivity.
Defined.

(** C5 does not hold as stated: a non-numeric ['level'] makes the parse fail
    with the [ValueError] of [int], not with [ParseError]. *)
Lemma patch_level_error_is_ValueError :
  Patch._from_string "a.patch;level:x" = Raise ValueError /\
  Patch._from_string "a.patch;level:x" <> Raise ParseError.
Proof. split; [reflexivity | discriminate]. Qed.

(** C5, amended: a [Patch] input whose ['level'] segment carries a value
    that is not an integer literal [int] accepts never parses.  Such a
    literal is white space (TAB, LF, VT, FF, CR, space, NEL or NBSP), an
    optional sign, decimal digits [0] to [9] optionally grouped by single
    underscores, and white space, with at most 4300 digits; the texts are
    those of code points below 256.  Over any inherited parser: when the ['level'] entry that
    parser produced is not an integer literal, the parse fails with
    [ValueError], the exception [int] raises.  For the input string itself:
    the parse fails with [ValueError] when the inherited dict parse
    succeeds, and with the error of the inherited dict parse otherwise. *)
Theorem patch_level_not_integer :
  (forall (base : string -> result (dict Py.value)) txt res s,
     base txt = Ok res ->
     PyDict.get "level" res = Some (Py.Str s) ->
     ~ int_literal s ->
     Patch._from_string_over base txt = Raise ValueError) /\
  (forall txt v,
     level_segment txt v ->
     ~ int_literal v ->
     Patch._from_string txt
     = Raise match DictOfStrings._from_string Patch.config txt with
             | inr _ => ValueError
             | inl e => e
             end).
Proof.
  assert (Hover : forall (base : string -> result (dict Py.value)) txt res s,
            base txt = Ok res ->
            PyDict.get "level" res = Some (Py.Str s) ->
            ~ int_literal s ->
            Patch._from_string_over base txt = Raise ValueError).
  { intros base txt res s Hbase Hlevel Hnot.
    rewrite (patch_with_level base txt res Hbase _ Hlevel). simpl.
    now rewrite (not_int_literal s Hnot). }
  split; [exact Hover|].
  intros txt v Hseg Hnot.
  destruct (DictOfStrings._from_string Patch.config txt) as [e|res] eqn:Hbase.
  - now apply patch_base_error.
  - apply (Hover _ txt res v Hbase); [|assumption].
    now apply (level_segment_entry txt).
Qed.

Lemma patch_level_not_integer_witness :
  Patch._from_string "a.patch;level:x" = Raise ValueError /\
  Patch._from_string "a.patch;level:1.5;bogus:1" = Raise ValidationError.
Proof.
  assert (Hx : ~ int_literal "x").
  { intros H. apply int_literal_accepted in H. destruct H as (n & H).
    vm_compute in H. discriminate H. }
  assert (Hy : ~ int_literal "1.5").
  { intros H. apply int_literal_accepted in H. destruct H as (n & H).
    vm_compute in H. discriminate H. }
  split.
  - apply (proj1 patch_level_not_integer (DictOfStrings._from_string Patch.config)
             "a.patch;level:x" [("filename", Py.Str "a.patch"); ("level", Py.Str "x")] "x").
    + reflexivity.
    + reflexivity.
    + exact Hx.
  - apply (proj2 patch_level_not_integer "a.patch;level:1.5;bogus:1" "1.5").
    + exists ["a.patch"], "level:1.5", ["bogus:1"].
      repeat split. repeat constructor; discriminate.
    + exact Hy.
Defined.

(** C6 does not hold for every filename and level value: a filename with
    [":"] is read as a [key:value] segment in the positional form, and a
    [";"] inside either value starts a new segment. *)
Lemma patch_forms_differ :
  Patch._from_string ("a:b" ++ ";level:" ++ "1") = Raise ValidationError /\
  Patch._from_string ("filename:" ++ "a:b" ++ ";level:" ++ "1")
  = Ok [("filename", Py.Str "a:b"); ("level", Py.Int 1)] /\
  Patch._from_string ("a" ++ ";level:" ++ "1;filename:b") = Raise ValidationError /\
  Patch._from_string ("filename:" ++ "a" ++ ";level:" ++ "1;filename:b")
  = Ok [("filename", Py.Str "b"); ("level", Py.Int 1)].
Proof. repeat split. Qed.

(** C6, amended: for every filename that contains neither [":"] nor [";"]
    and every level value that contains no [";"], the positional form
    [filename;level:value] and the fully keyed form
    [filename:filename;level:value] parse to the same outcome: the mapping
    of the filename and the integer level, or the [ValueError] of a level
    that is not an integer literal. *)
Theorem patch_positional_equals_explicit (f l : string) :
  Py.contains ":" f = false ->
  Py.contains ";" f = false ->
  Py.contains ";" l = false ->
  Patch._from_string (f ++ ";level:" ++ l)
  = Patch._from_string ("filename:" ++ f ++ ";level:" ++ l) /\
  Patch._from_string (f ++ ";level:" ++ l)
  = (new <- Py.int (Py.Str l) ;; Ok [("filename", Py.Str f); ("level", new)]).
Proof.
  intros Hfc Hfs Hls. split.
  - now rewrite patch_shorthand, patch_fully_keyed.
  - now apply patch_shorthand.
Qed.

Lemma patch_positional_equals_explicit_witness :
  Patch._from_string "a.patch;level:1" = Patch._from_string "filename:a.patch;level:1" /\
  Patch._from_string "a.patch;level:1"
  = Ok [("filename", Py.Str "a.patch"); ("level", Py.Int 1)].
Proof.
  apply (patch_positional_equals_explicit "a.patch" "1"); reflexivity.
Defined.

(** C7 does not hold as stated: with a segment that has no [":"] and is not
    positional, the parse fails in step 3 with [ParseError] before keys are
    validated. *)
Lemma patch_unknown_key_ParseError :
  Patch._from_string "a.patch;c;bogus:1" = Raise ParseError /\
  Patch._from_string "a.patch;c;bogus:1" <> Raise ValidationError.
Proof. split; [reflexivity | discriminate]. Qed.

(** C7, amended: a [Patch] string with a [key:value] segment whose key is
    not one of [filename], [level], [dest] never parses: the parse fails
    with [ValidationError] when every segment after the first contains
    [":"], and with [ParseError] otherwise; the unknown key is never
    dropped. *)
Theorem patch_unknown_key (txt seg k v : string) :
  In seg (Py.split ";" txt) ->
  Py.split_first ":" seg = Some (k, v) ->
  in_list k ["filename"; "level"; "dest"] = false ->
  Patch._from_string txt
  = Raise (if forallb has_colon (tl (Py.split ";" txt))
           then ValidationError else ParseError).
Proof.
  intros Hin Hkv Hk. apply patch_base_error.
  destruct (Py.split ";" txt) as [|s0 rest] eqn:Hsegs; [destruct Hin|].
  pose proof (patch_positional s0 rest) as Hpos. simpl tl.
  assert (Hseg : has_colon seg = true) by (eapply split_first_contains; eauto).
  destruct (has_colon s0) eqn:Hs0.
  - rewrite (from_string_steps Patch.config txt [] (s0 :: rest))
      by (unfold DictOfStrings.SEPARATOR_DICT; now rewrite Hsegs).
    destruct (forallb has_colon rest) eqn:Hrest.
    + destruct (explicit_wellformed (s0 :: rest)) as (keyed & -> & HF).
      { simpl. now rewrite Hs0. }
      destruct (Forall2_In_l _ _ _ _ HF Hin) as (kv & Hkey & Hkv').
      simpl. erewrite validate_unknown; eauto.
      unfold DictOfStrings.SEPARATOR_KEY_VALUE in Hkv'. now replace kv with (k, v) by congruence.
    + rewrite explicit_malformed; [reflexivity|]. simpl. now rewrite Hs0.
  - rewrite (from_string_steps Patch.config txt [("filename", s0)] rest)
      by (unfold DictOfStrings.SEPARATOR_DICT; now rewrite Hsegs).
    destruct Hin as [<- | Hin]; [congruence|].
    destruct (forallb has_colon rest) eqn:Hrest.
    + destruct (explicit_wellformed rest Hrest) as (keyed & -> & HF).
      destruct (Forall2_In_l _ _ _ _ HF Hin) as (kv & Hkey & Hkv').
      simpl. erewrite validate_unknown; eauto.
      unfold DictOfStrings.SEPARATOR_KEY_VALUE in Hkv'. now replace kv with (k, v) by congruence.
    + now rewrite explicit_malformed.
Qed.

Lemma patch_unknown_key_witness :
  Patch._from_string "a.patch;bogus:1" = Raise ValidationError.
Proof.
  apply (patch_unknown_key "a.patch;bogus:1" "bogus:1" "bogus" "1").
  - simpl. auto.
  - reflexivity.
  - reflexivity.
Defined.

(** C8 does not hold as stated: with a later segment that has no [":"], the
    parse fails in step 3 with [ParseError] before the duplicate is
    detected. *)
Lemma patch_duplicate_filename_ParseError :
  Patch._from_string "a.patch;c;filename:b.patch" = Raise ParseError /\
  Patch._from_string "a.patch;c;filename:b.patch" <> Raise ValidationError.
Proof. split; [reflexivity | discriminate]. Qed.

(** C8, amended: a [Patch] string that gives the filename positionally (a
    first segment without [":"]) and again in a [filename:] segment never
    parses: the parse fails with [ValidationError] when every later segment
    contains [":"], and with [ParseError] otherwise. *)
Theorem patch_duplicate_filename (txt s0 : string) (rest : list string) (seg v : string) :
  Py.split ";" txt = s0 :: rest ->
  has_colon s0 = false ->
  In seg rest ->
  Py.split_first ":" seg = Some ("filename", v) ->
  Patch._from_string txt
  = Raise (if forallb has_colon rest then ValidationError else ParseError).
Proof.
  intros Hsegs Hs0 Hin Hkv. apply patch_base_error.
  pose proof (patch_positional s0 rest) as Hpos. rewrite Hs0 in Hpos.
  rewrite (from_string_steps Patch.config txt [("filename", s0)] rest)
    by (unfold DictOfStrings.SEPARATOR_DICT; now rewrite Hsegs).
  destruct (forallb has_colon rest) eqn:Hrest.
  - destruct (explicit_wellformed rest Hrest) as (keyed & -> & HF).
    destruct (Forall2_In_l _ _ _ _ HF Hin) as (kv & Hkey & Hkv').
    simpl. erewrite validate_duplicate; eauto.
    unfold DictOfStrings.SEPARATOR_KEY_VALUE in Hkv'. now replace kv with ("filename", v) by congruence.
  - now rewrite explicit_malformed.
Qed.

Lemma patch_duplicate_filename_witness :
  Patch._from_string "a.patch;filename:b.patch" = Raise ValidationError.
Proof.
  apply (patch_duplicate_filename "a.patch;filename:b.patch" "a.patch"
           ["filename:b.patch"] "filename:b.patch" "b.patch").
  - reflexivity.
  - reflexivity.
  - simpl. auto.
  - reflexivity.
Defined.

(** C9: parsing a [Patches] string yields one element per [","]-separated
    segment, each the [Patch] parse of its segment, in the order of the
    segments; when an element fails to parse, the whole parse fails with
    that element's error and no later segment is handed to the [Patch]
    parser. *)
Theorem patches_elementwise (txt : string) :
  let segs := Py.split "," txt in
  (forall ps, Patches._from_string txt = Ok ps ->
     Forall2 (fun seg p => Patch._from_string seg = Ok p) segs ps) /\
  (Forall (fun seg => is_ok (Patch._from_string seg) = true) segs ->
     exists ps, Patches._from_string_traced txt = (segs, Ok ps) /\
                Forall2 (fun seg p => Patch._from_string seg = Ok p) segs ps) /\
  (forall pre seg post e,
     segs = pre ++ seg :: post ->
     Forall (fun x => is_ok (Patch._from_string x) = true) pre ->
     Patch._from_string seg = Raise e ->
     Patches._from_string_traced txt = (pre ++ [seg], Raise e)) /\
  Patches._from_string "a.patch,b.patch;level:1"
  = Ok [[("filename", Py.Str "a.patch")];
        [("filename", Py.Str "b.patch"); ("level", Py.Int 1)]].
Proof.
  intros segs. unfold Patches._from_string at 1 2, Patches._from_string_traced,
    ListOfStrings._from_string, Convert._split_string.
  change (Py.split ListOfStrings.SEPARATOR_LIST txt) with segs. clearbody segs.
  split; [|split; [|split]].
  - intros ps H.
    destruct (Patches.comprehension Patch.new segs) as [calls r] eqn:E.
    simpl in H. subst r. now apply comprehension_ok in E.
  - intros Hall. destruct (comprehension_all_ok Patch.new segs Hall) as (ps & Hps).
    exists ps. split; [assumption|]. now apply comprehension_ok in Hps.
  - intros pre seg post e -> Hpre Hseg. now apply comprehension_first_failure.
  - reflexivity.
Qed.

Lemma patches_elementwise_witness :
  Forall2 (fun seg p => Patch._from_string seg = Ok p)
    ["a.patch"; "b.patch;level:1"]
    [[("filename", Py.Str "a.patch")];
     [("filename", Py.Str "b.patch"); ("level", Py.Int 1)]] /\
  Patches._from_string_traced "a.patch,level:x,;;" = (["a.patch"; "level:x"], Raise ValueError).
Proof.
  split.
  - apply (proj1 (patches_elementwise "a.patch,b.patch;level:1")). reflexivity.
  - apply (proj1 (proj2 (proj2 (patches_elementwise "a.patch,level:x,;;")))
             ["a.patch"] "level:x" [";;"] ValueError).
    + reflexivity.
    + repeat constructor.
    + reflexivity.
Defined.

(** C10: [Patch._from_string] changes only the ['level'] entry of the
    mapping the inherited parser returns.  Over any inherited parser: the
    result has the same keys in the same order, every key other than
    ['level'] keeps the value the inherited parser produced, and when
    ['level'] is absent from that mapping the result is the mapping itself.
    For the input string itself: when no segment has the key ['level'], the
    result is the inherited dict parser's result. *)
Theorem patch_changes_only_level :
  (forall (base : string -> result (dict Py.value)) txt res,
     base txt = Ok res ->
     (PyDict.mem "level" res = false -> Patch._from_string_over base txt = Ok res) /\
     (forall out, Patch._from_string_over base txt = Ok out ->
        PyDict.keys out = PyDict.keys res /\
        forall k, k <> "level" -> PyDict.get k out = PyDict.get k res)) /\
  (forall txt res,
     no_level_segment txt ->
     DictOfStrings._from_string Patch.config txt = Ok res ->
     Patch._from_string txt = Ok res).
Proof.
  split.
  - intros base txt res Hbase. split.
    + now apply patch_without_level.
    + intros out Hout.
      destruct (patch_result_shape base txt res Hbase out Hout)
        as [[-> _] | (old & new & Hold & _ & ->)].
      * now split.
      * split.
        -- apply keys_set_mem. unfold PyDict.mem. now rewrite Hold.
        -- intros k Hk. now apply get_set_other.
  - intros txt res Hnone Hbase.
    apply patch_without_level; [assumption|].
    now apply (no_level_segment_entry txt).
Qed.

Lemma patch_changes_only_level_witness :
  (PyDict.keys [("filename", Py.Str "a.patch"); ("level", Py.Int 3);
                ("dest", Py.Str "/tmp")]
   = ["filename"; "level"; "dest"] /\
   forall k, k <> "level" ->
     PyDict.get k [("filename", Py.Str "a.patch"); ("level", Py.Int 3);
                   ("dest", Py.Str "/tmp")]
     = PyDict.get k [("filename", Py.Str "a.patch"); ("level", Py.Str "3");
                     ("dest", Py.Str "/tmp")]) /\
  Patch._from_string "a.patch;dest:/tmp"
  = Ok [("filename", Py.Str "a.patch"); ("dest", Py.Str "/tmp")].
Proof.
  split.
  - apply (proj2 (proj1 patch_changes_only_level
                    (DictOfStrings._from_string Patch.config)
                    "a.patch;level:3;dest:/tmp"
                    [("filename", Py.Str "a.patch"); ("level", Py.Str "3");
                     ("dest", Py.Str "/tmp")] eq_refl)
             [("filename", Py.Str "a.patch"); ("level", Py.Int 3);
              ("dest", Py.Str "/tmp")]).
    reflexivity.
  - apply (proj2 patch_changes_only_level "a.patch;dest:/tmp").
    + repeat constructor; discriminate.
    + reflexivity.
Defined.

(** * The dependency script *)

(** ** [extract_pkg_name] *)

Section SpecOperators.
Import FindPythonDeps.

Lemma before_first_decompose (stop : ascii -> bool) (s : string) :
  exists rest,
    s = (before_first stop s ++ rest)%string /\
    all_chars (fun a => negb (stop a)) (before_first stop s) = true /\
    (rest = "" \/ exists a rest', rest = String a rest' /\ stop a = true).
Proof.
  induction s as [|a s (rest & E & Hfree & Hrest)]; simpl.
  - exists "". auto.
  - destruct (stop a) eqn:Ea.
    + exists (String a s). simpl. split; [reflexivity|]. split; [reflexivity|].
      right. eauto.
    + exists rest. simpl. rewrite Ea, Hfree. split; [now rewrite <- E | auto].
Qed.

Lemma before_first_unique (stop : ascii -> bool) (name rest : string) :
  all_chars (fun a => negb (stop a)) name = true ->
  (rest = "" \/ exists a rest', rest = String a rest' /\ stop a = true) ->
  before_first stop (name ++ rest) = name.
Proof.
  intros Hname Hrest. induction name as [|a name IH]; simpl.
  - destruct Hrest as [-> | (a & rest' & -> & Ha)]; simpl; [reflexivity | now rewrite Ha].
  - simpl in Hname. apply andb_true_iff in Hname as [Ha Hname].
    apply negb_true_iff in Ha. rewrite Ha. f_equal. auto.
Qed.
End SpecOperators.

(** ** [find_deps] *)

Section FindDepsFacts.
Import FindPythonDeps.
Variable dep_tree : list entry.

Lemma loop_accumulator recurse pkgs : forall res,
  find_deps_loop recurse dep_tree pkgs res
  = match find_deps_loop recurse dep_tree pkgs [] with
    | inl err => inl err
    | inr found => inr (res ++ found)
    end.
Proof.
  induction pkgs as [|name pkgs IH]; intros res; simpl.
  - now rewrite app_nil_r.
  - destruct (matching_entries name dep_tree) as [|e [|e' l]]; try reflexivity.
    destruct (recurse (dependency_names e)) as [err|sub]; [reflexivity|].
    rewrite IH. rewrite (IH (reported e :: sub)).
    destruct (find_deps_loop recurse dep_tree pkgs []); [reflexivity|].
    now rewrite <- !app_assoc.
Qed.

(** The two equations of [find_deps]. *)
Lemma find_deps_nil depth : find_deps (S depth) [] dep_tree = inr [].
Proof. reflexivity. Qed.

Lemma find_deps_cons depth name pkgs :
  find_deps (S depth) (name :: pkgs) dep_tree
  = match matching_entries name dep_tree with
    | [] => inl (RuntimeError (not_found_msg name))
    | [e] =>
        match find_deps depth (dependency_names e) dep_tree with
        | inl err => inl err
        | inr sub =>
            match find_deps (S depth) pkgs dep_tree with
            | inl err => inl err
            | inr rest => inr (reported e :: sub ++ rest)
            end
        end
    | _ :: _ :: _ => inl (RuntimeError (multiple_msg name))
    end.
Proof.
  simpl. destruct (matching_entries name dep_tree) as [|e [|e' l]]; try reflexivity.
  destruct (find_deps depth (dependency_names e) dep_tree) as [err|sub]; [reflexivity|].
  rewrite loop_accumulator.
  change (find_deps_loop (fun deps => find_deps depth deps dep_tree) dep_tree pkgs [])
    with (find_deps (S depth) pkgs dep_tree).
  destruct (find_deps (S depth) pkgs dep_tree); reflexivity.
Qed.

Lemma find_deps_resolves depth : forall pkgs res,
  find_deps depth pkgs dep_tree = inr res -> resolves dep_tree pkgs res.
Proof.
  induction depth as [|depth IHd]; [discriminate|].
  induction pkgs as [|name pkgs IHp]; intros res.
  - intros [= <-]. constructor.
  - rewrite find_deps_cons.
    destruct (matching_entries name dep_tree) as [|e [|e' l]] eqn:Hm; try discriminate.
    destruct (find_deps depth (dependency_names e) dep_tree) as [err|sub] eqn:Hsub;
      [discriminate|].
    destruct (find_deps (S depth) pkgs dep_tree) as [err|rest] eqn:Hrest; [discriminate|].
    intros [= <-]. constructor; auto.
Qed.

Lemma resolves_find_deps pkgs res :
  resolves dep_tree pkgs res ->
  exists depth0, forall depth, depth0 <= depth -> find_deps depth pkgs dep_tree = inr res.
Proof.
  induction 1 as [|name pkgs e sub rest Hm _ (d1 & IH1) _ (d2 & IH2)].
  - exists 1. intros [|depth] H; [lia | reflexivity].
  - exists (Nat.max (S d1) d2). intros [|depth] H; [lia|].
    rewrite find_deps_cons, Hm, IH1, IH2 by lia. reflexivity.
Qed.

Lemma find_deps_stable depth : forall pkgs r depth',
  find_deps depth pkgs dep_tree = r -> r <> inl RecursionError ->
  depth <= depth' -> find_deps depth' pkgs dep_tree = r.
Proof.
  induction depth as [|depth IHd]; intros pkgs r depth' Hr Hne Hle.
  - simpl in Hr. congruence.
  - destruct depth' as [|depth']; [lia|]. apply le_S_n in Hle.
    revert r Hr Hne. induction pkgs as [|name pkgs IHp]; intros r Hr Hne.
    + now rewrite find_deps_nil in *.
    + rewrite find_deps_cons in *.
      destruct (matching_entries name dep_tree) as [|e [|e' l]]; try assumption.
      destruct (find_deps depth (dependency_names e) dep_tree) as [err|sub] eqn:Hsub.
      * rewrite (IHd _ _ depth' Hsub); [assumption | congruence | assumption].
      * rewrite (IHd _ _ depth' Hsub); [| discriminate | assumption].
        destruct (find_deps (S depth) pkgs dep_tree) as [err|rest] eqn:Hrest.
        -- rewrite (IHp _ eq_refl); [assumption | congruence].
        -- now rewrite (IHp _ eq_refl) by discriminate.
Qed.

Lemma find_deps_app depth p q :
  find_deps depth (p ++ q) dep_tree
  = match find_deps depth p dep_tree with
    | inl err => inl err
    | inr first =>
        match find_deps depth q dep_tree with
        | inl err => inl err
        | inr second => inr (first ++ second)
        end
    end.
Proof.
  destruct depth as [|depth]; [reflexivity|].
  induction p as [|name p IH].
  - rewrite find_deps_nil. change ([] ++ q) with q.
    destruct (find_deps (S depth) q dep_tree); reflexivity.
  - change ((name :: p) ++ q) with (name :: (p ++ q)). rewrite !find_deps_cons.
    destruct (matching_entries name dep_tree) as [|e [|e' l]]; try reflexivity.
    destruct (find_deps depth (dependency_names e) dep_tree) as [err|sub]; [reflexivity|].
    rewrite IH.
    destruct (find_deps (S depth) p dep_tree) as [err|first]; [reflexivity|].
    destruct (find_deps (S depth) q dep_tree) as [err|second]; [reflexivity|].
    now rewrite app_comm_cons, app_assoc.
Qed.
End FindDepsFacts.

(** ** Resolutions and the names they look up *)

Section ResolvesFacts.
Import FindPythonDeps.
Variable dep_tree : list entry.

Lemma matching_in name e :
  matching_entries name dep_tree = [e] -> In e dep_tree /\ matches name e = true.
Proof.
  intros H. apply filter_In. unfold matching_entries in H. rewrite H. now left.
Qed.

Lemma matching_unique name e e' :
  matching_entries name dep_tree = [e] ->
  In e' dep_tree -> matches name e' = true -> e' = e.
Proof.
  intros H Hin Hm.
  assert (Hf : In e' (matching_entries name dep_tree)) by now apply filter_In.
  rewrite H in Hf. destruct Hf as [<- | []]. reflexivity.
Qed.

Lemma resolves_functional pkgs r1 :
  resolves dep_tree pkgs r1 -> forall r2, resolves dep_tree pkgs r2 -> r1 = r2.
Proof.
  induction 1 as [|name pkgs e sub rest Hm _ IH1 _ IH2]; intros r2 H2;
    inversion H2 as [|? ? e' sub' rest' Hm' Hsub' Hrest']; subst; [reflexivity|].
  assert (e' = e) as -> by congruence.
  now rewrite (IH1 _ Hsub'), (IH2 _ Hrest').
Qed.

Lemma resolves_single name e sub :
  matching_entries name dep_tree = [e] ->
  resolves dep_tree (dependency_names e) sub ->
  resolves dep_tree [name] (reported e :: sub).
Proof.
  intros Hm Hsub. rewrite <- (app_nil_r sub). constructor; auto. constructor.
Qed.

Lemma resolves_single_inv name r :
  resolves dep_tree [name] r ->
  exists e sub, matching_entries name dep_tree = [e] /\
                resolves dep_tree (dependency_names e) sub /\
                r = reported e :: sub.
Proof.
  intros H. inversion H as [|? ? e sub rest Hm Hsub Hrest]; subst.
  inversion Hrest; subst. exists e, sub. now rewrite app_nil_r.
Qed.

Lemma resolves_In pkgs r p :
  resolves dep_tree pkgs r -> In p pkgs ->
  exists rp, resolves dep_tree [p] rp /\ incl rp r /\ length rp <= length r.
Proof.
  induction 1 as [|name pkgs e sub rest Hm Hsub _ Hrest IH]; intros Hin; [destruct Hin|].
  destruct Hin as [-> | Hin].
  - exists (reported e :: sub). split; [now apply resolves_single|]. split.
    + intros x [<- | Hx]; [now left | right; apply in_app_iff; now left].
    + simpl. rewrite length_app. lia.
  - destruct (IH Hin) as (rp & Hrp & Hincl & Hlen). exists rp. split; [assumption|].
    split.
    + intros x Hx. right. apply in_app_iff. right. now apply Hincl.
    + simpl. rewrite length_app. lia.
Qed.

Lemma resolves_dependency p r q :
  resolves dep_tree [p] r -> depends_on dep_tree p q ->
  exists rq, resolves dep_tree [q] rq /\ incl rq r /\ length rq < length r.
Proof.
  intros Hp (e & He & Hmatch & Hq).
  destruct (resolves_single_inv p r Hp) as (e0 & sub & Hm & Hsub & ->).
  assert (e = e0) as -> by now apply (matching_unique p).
  destruct (resolves_In _ _ q Hsub Hq) as (rq & Hrq & Hincl & Hlen).
  exists rq. split; [assumption|]. split.
  - intros x Hx. right. now apply Hincl.
  - simpl. lia.
Qed.

Lemma resolves_chain p r q :
  resolves dep_tree [p] r ->
  clos_refl_trans string (depends_on dep_tree) p q ->
  exists rq, resolves dep_tree [q] rq /\ incl rq r /\ length rq <= length r.
Proof.
  intros Hp Hpq. apply clos_rt_rtn1 in Hpq.
  induction Hpq as [|y z Hyz _ (ry & Hry & Hincl & Hlen)].
  - exists r. split; [assumption|]. split; [apply incl_refl | lia].
  - destruct (resolves_dependency y ry z Hry Hyz) as (rz & Hrz & Hincl' & Hlen').
    exists rz. split; [assumption|]. split; [|lia].
    intros x Hx. apply Hincl, Hincl', Hx.
Qed.

Lemma resolves_queried pkgs r name :
  resolves dep_tree pkgs r -> queried dep_tree pkgs name ->
  exists rn, resolves dep_tree [name] rn /\ incl rn r.
Proof.
  intros Hr (root & Hroot & Hchain).
  destruct (resolves_In pkgs r root Hr Hroot) as (r0 & Hr0 & Hincl0 & _).
  destruct (resolves_chain root r0 name Hr0 Hchain) as (rn & Hrn & Hincl & _).
  exists rn. split; [assumption|]. intros x Hx. apply Hincl0, Hincl, Hx.
Qed.

Lemma queried_dependencies name pkgs e n :
  matching_entries name dep_tree = [e] ->
  queried dep_tree (dependency_names e) n -> queried dep_tree (name :: pkgs) n.
Proof.
  intros Hm (root & Hroot & Hchain). destruct (matching_in name e Hm) as [He Hmatch].
  exists name. split; [now left|].
  apply rt_trans with root; [|assumption].
  apply rt_step. exists e. auto.
Qed.

Lemma queried_tail name pkgs n :
  queried dep_tree pkgs n -> queried dep_tree (name :: pkgs) n.
Proof. intros (root & Hroot & Hchain). exists root. split; [now right | assumption]. Qed.

Lemma queried_root pkgs name : In name pkgs -> queried dep_tree pkgs name.
Proof. intros H. exists name. split; [assumption | apply rt_refl]. Qed.

Lemma resolves_sound pkgs r :
  resolves dep_tree pkgs r ->
  forall x, In x r ->
    exists name e, queried dep_tree pkgs name /\ In e dep_tree /\
                   matches name e = true /\ x = reported e.
Proof.
  induction 1 as [|name pkgs e sub rest Hm _ IH1 _ IH2]; intros x Hx; [destruct Hx|].
  destruct (matching_in name e Hm) as [He Hmatch].
  destruct Hx as [<- | Hx].
  - exists name, e. split; [apply queried_root; now left | auto].
  - apply in_app_iff in Hx as [Hx | Hx].
    + destruct (IH1 x Hx) as (n & e' & Hq & He' & Hm' & ->).
      exists n, e'. split; [now apply (queried_dependencies name pkgs e) | auto].
    + destruct (IH2 x Hx) as (n & e' & Hq & He' & Hm' & ->).
      exists n, e'. split; [now apply queried_tail | auto].
Qed.

Lemma resolves_complete pkgs r name e :
  resolves dep_tree pkgs r -> queried dep_tree pkgs name ->
  In e dep_tree -> matches name e = true ->
  matching_entries name dep_tree = [e] /\ In (reported e) r.
Proof.
  intros Hr Hq He Hmatch.
  destruct (resolves_queried pkgs r name Hr Hq) as (rn & Hrn & Hincl).
  destruct (resolves_single_inv name rn Hrn) as (e0 & sub & Hm & _ & ->).
  assert (e = e0) as -> by now apply (matching_unique name).
  split; [assumption|]. apply Hincl. now left.
Qed.

(** A name that depends on itself cannot be resolved. *)
Lemma resolves_acyclic p r :
  resolves dep_tree [p] r -> ~ clos_trans string (depends_on dep_tree) p p.
Proof.
  intros Hp Hcycle. apply clos_trans_t1n in Hcycle.
  inversion Hcycle as [y Hstep | y z Hstep Hrest]; subst.
  - destruct (resolves_dependency p r p Hp Hstep) as (r' & Hr' & _ & Hlen).
    rewrite (resolves_functional _ _ Hr' _ Hp) in Hlen. lia.
  - destruct (resolves_dependency p r y Hp Hstep) as (ry & Hry & _ & Hlen).
    apply clos_t1n_trans in Hrest. apply clos_t_clos_rt in Hrest.
    destruct (resolves_chain y ry p Hry Hrest) as (r' & Hr' & _ & Hlen').
    rewrite (resolves_functional _ _ Hr' _ Hp) in Hlen'. lia.
Qed.
End ResolvesFacts.

(** ** Errors and termination of [find_deps] *)

Section FindDepsOutcomes.
Import FindPythonDeps.
Variable dep_tree : list entry.

Lemma find_deps_runtime_error depth : forall pkgs msg,
  find_deps depth pkgs dep_tree = inl (RuntimeError msg) ->
  exists name,
    queried dep_tree pkgs name /\
    (msg = not_found_msg name /\ matching_entries name dep_tree = [] \/
     msg = multiple_msg name /\ 2 <= length (matching_entries name dep_tree)).
Proof.
  induction depth as [|depth IHd]; [discriminate|].
  induction pkgs as [|name pkgs IHp]; intros msg; [discriminate|].
  rewrite find_deps_cons.
  destruct (matching_entries name dep_tree) as [|e [|e' l]] eqn:Hm.
  - intros [= <-]. exists name. split; [apply queried_root; now left|].
    left. now rewrite Hm.
  - destruct (find_deps depth (dependency_names e) dep_tree) as [err|sub] eqn:Hsub.
    + intros [= ->]. destruct (IHd _ _ Hsub) as (n & Hq & Hcases).
      exists n. split; [now apply (queried_dependencies dep_tree name pkgs e) | assumption].
    + destruct (find_deps (S depth) pkgs dep_tree) as [err|rest] eqn:Hrest; [|discriminate].
      intros [= ->]. destruct (IHp _ eq_refl) as (n & Hq & Hcases).
      exists n. split; [now apply queried_tail | assumption].
  - intros [= <-]. exists name. split; [apply queried_root; now left|].
    right. rewrite Hm. split; [reflexivity | simpl; lia].
Qed.

Section Ranked.
(** A rank that decreases along every dependency. *)
Variable rank : string -> nat.
Hypothesis Hrank : forall p q, depends_on dep_tree p q -> rank q < rank p.

Lemma find_deps_ranked depth : forall pkgs,
  (forall p, In p pkgs -> rank p < depth) ->
  find_deps (S depth) pkgs dep_tree <> inl RecursionError.
Proof.
  induction depth as [|depth IHd]; intros pkgs Hpkgs.
  - destruct pkgs as [|p pkgs]; [discriminate|].
    specialize (Hpkgs p (or_introl eq_refl)). lia.
  - induction pkgs as [|name pkgs IHp]; [discriminate|].
    rewrite find_deps_cons.
    destruct (matching_entries name dep_tree) as [|e [|e' l]] eqn:Hm; try discriminate.
    destruct (matching_in dep_tree name e Hm) as [He Hmatch].
    assert (Hsub : find_deps (S depth) (dependency_names e) dep_tree <> inl RecursionError).
    { apply IHd. intros q Hq.
      assert (rank q < rank name) by (apply Hrank; exists e; auto).
      specialize (Hpkgs name (or_introl eq_refl)). lia. }
    destruct (find_deps (S depth) (dependency_names e) dep_tree) as [err|sub];
      [congruence|].
    assert (Hrest : find_deps (S (S depth)) pkgs dep_tree <> inl RecursionError).
    { apply IHp. intros p Hp. apply Hpkgs. now right. }
    destruct (find_deps (S (S depth)) pkgs dep_tree) as [err|rest];
      [congruence | discriminate].
Qed.
End Ranked.
End FindDepsOutcomes.

(** ** The loop over the reversed dependencies *)

Section InstallLoopFacts.
Import FindPythonDeps.

Lemma pkg_eqb_eq (a b : pkg) : pkg_eqb a b = true <-> a = b.
Proof.
  destruct a as [a1 a2], b as [b1 b2]. unfold pkg_eqb. simpl.
  rewrite andb_true_iff, !String.eqb_eq. split; [intros [-> ->] | intros [= -> ->]]; auto.
Qed.

Lemma pkg_in_In (x : pkg) l : pkg_in x l = true <-> In x l.
Proof.
  unfold pkg_in. rewrite existsb_exists. split.
  - intros (y & Hy & Heq). apply pkg_eqb_eq in Heq. now subst.
  - intros H. exists x. split; [assumption | now apply pkg_eqb_eq].
Qed.

Lemma pkg_in_false (x : pkg) l : pkg_in x l = false <-> ~ In x l.
Proof.
  rewrite <- pkg_in_In. destruct (pkg_in x l); split; congruence.
Qed.

Lemma first_occurrences_In deps : forall handled x,
  In x (first_occurrences handled deps) <-> In x deps /\ ~ In x handled.
Proof.
  induction deps as [|d deps IH]; intros handled x; simpl; [tauto|].
  destruct (pkg_in d handled) eqn:Hd.
  - apply pkg_in_In in Hd. rewrite IH. split; [tauto|].
    intros [[<- | Hx] Hn]; [contradiction | tauto].
  - apply pkg_in_false in Hd. simpl. rewrite IH. simpl. split.
    + intros [<- | (Hx & Hn)]; [tauto|]. split; [tauto|]. tauto.
    + intros [[<- | Hx] Hn]; [tauto|].
      destruct (pkg_in x [d]) eqn:E.
      * apply pkg_in_In in E. destruct E as [<- | []]. tauto.
      * apply pkg_in_false in E. right. split; [assumption|].
        intros [<- | H]; [apply E; now left | contradiction].
Qed.

Lemma first_occurrences_NoDup deps : forall handled,
  NoDup (first_occurrences handled deps).
Proof.
  induction deps as [|d deps IH]; intros handled; simpl; [constructor|].
  destruct (pkg_in d handled); [apply IH|].
  constructor; [|apply IH].
  rewrite first_occurrences_In. intros [_ H]. apply H. now left.
Qed.

Lemma first_occurrences_ext deps : forall handled handled',
  (forall x, In x handled <-> In x handled') ->
  first_occurrences handled deps = first_occurrences handled' deps.
Proof.
  induction deps as [|d deps IH]; intros handled handled' Hext; simpl; [reflexivity|].
  assert (pkg_in d handled = pkg_in d handled') as ->.
  { destruct (pkg_in d handled') eqn:E.
    - apply pkg_in_In. apply Hext. now apply pkg_in_In.
    - apply pkg_in_false. rewrite Hext. now apply pkg_in_false. }
  destruct (pkg_in d handled'); [now apply IH|].
  f_equal. apply IH. intros x. simpl. now rewrite Hext.
Qed.

Lemma first_occurrences_app l1 : forall handled l2,
  first_occurrences handled (l1 ++ l2)
  = first_occurrences handled l1 ++ first_occurrences (l1 ++ handled) l2.
Proof.
  induction l1 as [|d l1 IH]; intros handled l2; simpl; [reflexivity|].
  destruct (pkg_in d handled) eqn:Hd.
  - rewrite IH. f_equal. apply first_occurrences_ext.
    intros x. simpl. rewrite !in_app_iff. apply pkg_in_In in Hd.
    split; [tauto|]. intros [<- | H]; tauto.
  - rewrite IH. simpl. f_equal. f_equal. apply first_occurrences_ext.
    intros x. simpl. rewrite !in_app_iff. simpl. tauto.
Qed.

Variable installed_modules : list string.

Let kept (dep : pkg) : bool := negb (in_list (fst dep) installed_modules).

Lemma install_loop_spec deps : forall res handled,
  install_loop installed_modules deps res handled
  = res ++ filter kept (first_occurrences handled deps).
Proof.
  induction deps as [|d deps IH]; intros res handled; simpl.
  - now rewrite app_nil_r.
  - destruct (pkg_in d handled); simpl; [apply IH|].
    unfold kept at 1. destruct (in_list (fst d) installed_modules); simpl.
    + apply IH.
    + rewrite IH. now rewrite <- app_assoc.
Qed.

Lemma install_order_spec deps :
  install_order installed_modules deps
  = filter kept (first_occurrences [] (List.rev deps)).
Proof. unfold install_order. now rewrite install_loop_spec. Qed.

Lemma install_order_In deps x :
  In x (install_order installed_modules deps)
  <-> In x deps /\ in_list (fst x) installed_modules = false.
Proof.
  rewrite install_order_spec, filter_In, first_occurrences_In, <- in_rev.
  unfold kept. rewrite negb_true_iff. simpl. tauto.
Qed.

Lemma install_order_NoDup deps : NoDup (install_order installed_modules deps).
Proof.
  rewrite install_order_spec. apply NoDup_filter, first_occurrences_NoDup.
Qed.

Lemma In_first_split (x : pkg) l :
  In x l -> exists l1 l2, l = l1 ++ x :: l2 /\ ~ In x l1.
Proof.
  induction l as [|a l IH]; [intros []|].
  destruct (pkg_eqb a x) eqn:E.
  - apply pkg_eqb_eq in E. subst a. intros _. exists [], l. auto.
  - intros [-> | Hin].
    + assert (pkg_eqb x x = true) by now apply pkg_eqb_eq. congruence.
    + destruct (IH Hin) as (l1 & l2 & -> & Hn). exists (a :: l1), l2.
      split; [reflexivity|]. intros [-> | H]; [|contradiction].
      assert (pkg_eqb x x = true) by now apply pkg_eqb_eq. congruence.
Qed.

(** When every occurrence of [x] in [deps] is followed by an occurrence of
    [y], the loop lists [y] before [x]. *)
Lemma install_order_before deps x y :
  (forall l1 l2, deps = l1 ++ x :: l2 -> In y l2) ->
  In x (install_order installed_modules deps) ->
  in_list (fst y) installed_modules = false ->
  exists before after,
    install_order installed_modules deps = before ++ x :: after /\ In y before.
Proof.
  intros Hfollow Hx Hy. apply install_order_In in Hx as [Hx Hkept].
  apply in_rev in Hx. destruct (In_first_split x _ Hx) as (l1 & l2 & Hsplit & Hfirst).
  assert (Hdeps : deps = List.rev l2 ++ x :: List.rev l1).
  { rewrite <- (List.rev_involutive deps), Hsplit, rev_app_distr. simpl.
    now rewrite <- app_assoc. }
  assert (Hyl1 : In y l1) by (apply in_rev; now apply (Hfollow _ _ Hdeps)).
  rewrite install_order_spec, Hsplit, first_occurrences_app. simpl.
  assert (pkg_in x (l1 ++ []) = false) as ->.
  { apply pkg_in_false. now rewrite app_nil_r. }
  rewrite filter_app. simpl. unfold kept at 2. rewrite Hkept. simpl.
  eexists _, _. split; [reflexivity|].
  apply filter_In. split.
  - apply first_occurrences_In. split; [assumption | intros []].
  - unfold kept. now rewrite Hy.
Qed.
End InstallLoopFacts.

(** ** Dependencies follow their dependents in a resolution *)

Section FollowFacts.
Import FindPythonDeps.
Variable dep_tree : list entry.
(** Entries are told apart by the package they report. *)
Hypothesis Hdistinct :
  forall e1 e2, In e1 dep_tree -> In e2 dep_tree -> reported e1 = reported e2 -> e1 = e2.

Lemma resolves_follow pkgs l :
  resolves dep_tree pkgs l ->
  forall l1 x l2, l = l1 ++ x :: l2 ->
  forall e q e',
    In e dep_tree -> reported e = x -> In q (dependency_names e) ->
    In e' dep_tree -> matches q e' = true ->
    In (reported e') l2.
Proof.
  induction 1 as [|name pkgs e0 sub rest Hm Hsub IH1 Hrest IH2];
    intros l1 x l2 Hsplit e q e' He Hx Hq He' Hmatch.
  - now destruct l1.
  - destruct (matching_in dep_tree name e0 Hm) as [He0 _].
    destruct l1 as [|a l1]; simpl in Hsplit; injection Hsplit as Hhead Htail.
    + subst x l2. assert (e = e0) as -> by now apply Hdistinct.
      apply in_app_iff. left.
      apply (resolves_complete dep_tree _ sub q e' Hsub); auto.
      now apply queried_root.
    + apply app_eq_app in Htail as (l & [[Hs Hr] | [Hl Hr]]).
      * destruct l as [|x' l].
        -- simpl in Hr. apply (IH2 [] x l2 (eq_sym Hr) e q e'); auto.
        -- simpl in Hr. injection Hr as -> ->. apply in_app_iff. left.
           apply (IH1 l1 x' l Hs e q e'); auto.
      * apply (IH2 l x l2 Hr e q e'); auto.
Qed.

(** The package of the first name is not reported again among its own
    dependencies. *)
Lemma resolves_root_once name e sub :
  matching_entries name dep_tree = [e] ->
  resolves dep_tree (dependency_names e) sub ->
  ~ In (reported e) sub.
Proof.
  intros Hm Hsub Hin.
  destruct (matching_in dep_tree name e Hm) as [He _].
  destruct (resolves_sound dep_tree _ sub Hsub _ Hin) as (n & e1 & Hq & He1 & Hmatch & Heq).
  assert (e1 = e) as -> by (apply Hdistinct; auto).
  destruct Hq as (root & Hroot & Hchain).
  destruct (resolves_In dep_tree _ sub root Hsub Hroot) as (r0 & Hr0 & _ & Hlen0).
  destruct (resolves_chain dep_tree root r0 n Hr0 Hchain) as (rn & Hrn & _ & Hlen).
  destruct (resolves_single_inv dep_tree n rn Hrn) as (e2 & sub2 & Hm2 & Hsub2 & ->).
  assert (e = e2) as <- by now apply (matching_unique dep_tree n).
  rewrite (resolves_functional dep_tree _ _ Hsub2 _ Hsub) in Hlen. simpl in Hlen. lia.
Qed.
End FollowFacts.

(** * Further properties of the code *)

(** ** [findPythonDeps.py] *)

(** X1: [extract_pkg_name] returns the part of the command-line package
    spec [args.package] before its first [<], [>], [=] or [~]: the spec is
    the returned name followed by nothing or by a text that starts with
    one of the four characters, the name holds none of them, and it is the
    only such prefix.  The argument of the call is not read. *)
Theorem extract_pkg_name_prefix (args_package package_spec : string) :
  let name := FindPythonDeps.extract_pkg_name args_package package_spec in
  let operator_free s :=
    all_chars (fun a => negb (FindPythonDeps.is_spec_operator a)) s = true in
  let at_operator rest :=
    rest = "" \/
    exists a rest', rest = String a rest' /\ FindPythonDeps.is_spec_operator a = true in
  (exists rest, args_package = (name ++ rest)%string /\ operator_free name /\ at_operator rest) /\
  (forall name' rest,
     args_package = (name' ++ rest)%string -> operator_free name' -> at_operator rest ->
     name = name') /\
  (forall other, FindPythonDeps.extract_pkg_name args_package other = name).
Proof.
  intros name operator_free at_operator. split; [|split].
  - apply before_first_decompose.
  - intros name' rest -> Hfree Hrest.
    now apply before_first_unique.
  - reflexivity.
Qed.

Lemma extract_pkg_name_prefix_witness :
  FindPythonDeps.extract_pkg_name "tensorflow==2.3.4" "numpy" = "tensorflow".
Proof.
  apply (proj1 (proj2 (extract_pkg_name_prefix "tensorflow==2.3.4" "numpy"))
           "tensorflow" "==2.3.4").
  - reflexivity.
  - reflexivity.
  - right. exists "="%char, "=2.3.4". split; reflexivity.
Defined.

(** X2: the outcome of [find_deps] does not depend on how deep calls may
    nest, once they may nest deep enough: a returned list or a
    [RuntimeError] obtained within some nesting depth is the outcome at
    every greater depth. *)
Theorem find_deps_deeper (dep_tree : list FindPythonDeps.entry)
    (depth depth' : nat) (pkgs : list string)
    (r : FindPythonDeps.error + list FindPythonDeps.pkg) :
  FindPythonDeps.find_deps depth pkgs dep_tree = r ->
  r <> inl FindPythonDeps.RecursionError ->
  depth <= depth' ->
  FindPythonDeps.find_deps depth' pkgs dep_tree = r.
Proof. intros H Hr Hle. now apply (find_deps_stable dep_tree depth). Qed.

Lemma find_deps_deeper_witness :
  FindPythonDeps.find_deps 1000 ["tensorflow"] FindPythonDeps.sample_tree
  = inr FindPythonDeps.sample_deps.
Proof.
  apply (find_deps_deeper FindPythonDeps.sample_tree 4 1000).
  - vm_compute. reflexivity.
  - discriminate.
  - apply Nat.leb_le. vm_compute. reflexivity.
Defined.

(** X3: [find_deps] on a concatenation of two lists of names returns the
    concatenation of what it returns on each, and raises the first error
    otherwise: the names are resolved from left to right, independently of
    each other. *)
Theorem find_deps_concat (dep_tree : list FindPythonDeps.entry)
    (depth : nat) (p q : list string) :
  FindPythonDeps.find_deps depth (p ++ q) dep_tree
  = match FindPythonDeps.find_deps depth p dep_tree with
    | inl err => inl err
    | inr first =>
        match FindPythonDeps.find_deps depth q dep_tree with
        | inl err => inl err
        | inr second => inr (first ++ second)
        end
    end.
Proof. apply find_deps_app. Qed.

(** X4: when [find_deps] returns, every name it looked up (the given names
    and, transitively, the dependencies of the entries that match them) has
    exactly one matching entry in the tree, and the returned list holds
    exactly the [(package_name, installed_version)] of these entries. *)
Theorem find_deps_reports (dep_tree : list FindPythonDeps.entry)
    (depth : nat) (pkgs : list string) (res : list FindPythonDeps.pkg) :
  FindPythonDeps.find_deps depth pkgs dep_tree = inr res ->
  (forall name, FindPythonDeps.queried dep_tree pkgs name ->
     exists e, FindPythonDeps.matching_entries name dep_tree = [e]) /\
  (forall x, In x res <->
     exists name e,
       FindPythonDeps.queried dep_tree pkgs name /\ In e dep_tree /\
       FindPythonDeps.matches name e = true /\ x = FindPythonDeps.reported e).
Proof.
  intros H. apply find_deps_resolves in H. split.
  - intros name Hq.
    destruct (resolves_queried dep_tree pkgs res name H Hq) as (rn & Hrn & _).
    destruct (resolves_single_inv dep_tree name rn Hrn) as (e & sub & Hm & _).
    now exists e.
  - intros x. split.
    + now apply (resolves_sound dep_tree pkgs res).
    + intros (name & e & Hq & He & Hm & ->).
      now apply (resolves_complete dep_tree pkgs res name e).
Qed.

Lemma find_deps_reports_witness :
  exists e, FindPythonDeps.matching_entries "Keras" FindPythonDeps.sample_tree = [e].
Proof.
  refine (proj1 (find_deps_reports FindPythonDeps.sample_tree 4 ["tensorflow"]
                   FindPythonDeps.sample_deps _) "Keras" _).
  - vm_compute. reflexivity.
  - exists "tensorflow". split; [now left|].
    apply rt_step.
    exists (FindPythonDeps.entry_of "TensorFlow" "tensorflow" "2.3.4"
              ["numpy"; "six"; "Keras"]).
    split; [now left|]. split; [reflexivity|]. right. right. now left.
Defined.

(** X5: a [RuntimeError] of [find_deps] names a name that was looked up:
    either no entry of the tree matches it (by package name or by key), and
    the message is the "no installed package" one, or at least two entries
    match it, and the message is the "multiple installed packages" one. *)
Theorem find_deps_failure (dep_tree : list FindPythonDeps.entry)
    (depth : nat) (pkgs : list string) (msg : string) :
  FindPythonDeps.find_deps depth pkgs dep_tree = inl (FindPythonDeps.RuntimeError msg) ->
  exists name,
    FindPythonDeps.queried dep_tree pkgs name /\
    (msg = FindPythonDeps.not_found_msg name /\
     FindPythonDeps.matching_entries name dep_tree = [] \/
     msg = FindPythonDeps.multiple_msg name /\
     2 <= length (FindPythonDeps.matching_entries name dep_tree)).
Proof. apply find_deps_runtime_error. Qed.

Lemma find_deps_failure_witness :
  exists name,
    FindPythonDeps.queried FindPythonDeps.broken_tree ["a"] name /\
    ("Found no installed package for 'b'" = FindPythonDeps.not_found_msg name /\
     FindPythonDeps.matching_entries name FindPythonDeps.broken_tree = [] \/
     "Found no installed package for 'b'" = FindPythonDeps.multiple_msg name /\
     2 <= length (FindPythonDeps.matching_entries name FindPythonDeps.broken_tree)).
Proof.
  apply (find_deps_failure FindPythonDeps.broken_tree 2 ["a"]).
  vm_compute. reflexivity.
Defined.

(** X6: on a circular dependency [find_deps] never returns a list: when a
    name that is looked up depends, directly or through other packages, on
    itself, every nesting depth ends in an exception. *)
Theorem find_deps_cycle (dep_tree : list FindPythonDeps.entry)
    (pkgs : list string) (name : string) :
  FindPythonDeps.queried dep_tree pkgs name ->
  clos_trans string (FindPythonDeps.depends_on dep_tree) name name ->
  forall depth res, FindPythonDeps.find_deps depth pkgs dep_tree <> inr res.
Proof.
  intros Hq Hcycle depth res H. apply find_deps_resolves in H.
  destruct (resolves_queried dep_tree pkgs res name H Hq) as (rn & Hrn & _).
  exact (resolves_acyclic dep_tree name rn Hrn Hcycle).
Qed.

Lemma find_deps_cycle_witness :
  ~ exists depth res,
      FindPythonDeps.find_deps depth ["a"] FindPythonDeps.cyclic_tree = inr res.
Proof.
  intros (depth & res & H). revert H.
  apply (find_deps_cycle FindPythonDeps.cyclic_tree ["a"] "a").
  - exists "a". split; [now left | apply rt_refl].
  - apply t_trans with "b"; apply t_step.
    + exists (FindPythonDeps.entry_of "a" "a" "1" ["b"]).
      split; [now left|]. split; [reflexivity | now left].
    + exists (FindPythonDeps.entry_of "b" "b" "1" ["a"]).
      split; [right; now left|]. split; [reflexivity | now left].
Defined.

(** X7: without circular dependencies the nesting of the calls is bounded
    by the longest chain of dependencies: when a rank decreases along every
    dependency of the tree and the given names have a rank below [depth],
    calls that may nest [depth + 1] deep do not raise [RecursionError]. *)
Theorem find_deps_nesting (dep_tree : list FindPythonDeps.entry)
    (rank : string -> nat) (depth : nat) (pkgs : list string) :
  (forall p q, FindPythonDeps.depends_on dep_tree p q -> rank q < rank p) ->
  (forall p, In p pkgs -> rank p < depth) ->
  FindPythonDeps.find_deps (S depth) pkgs dep_tree <> inl FindPythonDeps.RecursionError.
Proof. intros Hrank Hpkgs. now apply (find_deps_ranked dep_tree rank Hrank). Qed.

Lemma find_deps_nesting_witness :
  FindPythonDeps.find_deps 4 ["tensorflow"] FindPythonDeps.sample_tree
  <> inl FindPythonDeps.RecursionError.
Proof.
  apply (find_deps_nesting FindPythonDeps.sample_tree FindPythonDeps.sample_rank 3).
  - intros p q (e & He & Hm & Hq).
    apply orb_true_iff in Hm.
    destruct He as [<- | [<- | [<- | [<- | []]]]];
      destruct Hm as [Hm | Hm]; apply String.eqb_eq in Hm; subst p;
      simpl in Hq; intuition (subst; apply Nat.ltb_lt; vm_compute; reflexivity).
  - intros p [<- | []]. apply Nat.ltb_lt. vm_compute. reflexivity.
Defined.

(** X8: the loop over [reversed(deps)] keeps every package once: the list
    it builds has no duplicates and holds exactly the packages of [deps]
    whose name is not among the installed modules. *)
Theorem install_order_set (installed_modules : list string)
    (deps : list FindPythonDeps.pkg) :
  NoDup (FindPythonDeps.install_order installed_modules deps) /\
  forall x, In x (FindPythonDeps.install_order installed_modules deps)
            <-> In x deps /\ in_list (fst x) installed_modules = false.
Proof.
  split; [apply install_order_NoDup | intros x; apply install_order_In].
Qed.

(** X9: the install order respects the dependencies.  When the script
    reports its lists and the entries of the tree are told apart by the
    package they report, every package in the install order comes after
    the package of each of its dependencies that is not among the installed
    modules. *)
Theorem report_dependencies_first (depth : nat) (args_package : string)
    (installed_modules : list string) (dep_tree : list FindPythonDeps.entry)
    (res srt : list FindPythonDeps.pkg)
    (e e' : FindPythonDeps.entry) (q : string) :
  FindPythonDeps.report depth args_package installed_modules dep_tree = inr (res, srt) ->
  (forall e1 e2, In e1 dep_tree -> In e2 dep_tree ->
     FindPythonDeps.reported e1 = FindPythonDeps.reported e2 -> e1 = e2) ->
  In e dep_tree -> In (FindPythonDeps.reported e) res ->
  In q (FindPythonDeps.dependency_names e) ->
  In e' dep_tree -> FindPythonDeps.matches q e' = true ->
  in_list (fst (FindPythonDeps.reported e')) installed_modules = false ->
  exists before after,
    res = before ++ FindPythonDeps.reported e :: after /\
    In (FindPythonDeps.reported e') before.
Proof.
  unfold FindPythonDeps.report.
  destruct (FindPythonDeps.find_deps depth _ dep_tree) as [err|deps] eqn:Hdeps;
    [discriminate|].
  intros [= <- _] Hdistinct He Hin Hq He' Hm Hkept.
  apply find_deps_resolves in Hdeps.
  apply install_order_before; auto.
  intros l1 l2 Hsplit.
  exact (resolves_follow dep_tree Hdistinct _ deps Hdeps l1 _ l2 Hsplit
           e q e' He eq_refl Hq He' Hm).
Qed.

Lemma report_dependencies_first_witness :
  exists before after,
    [("numpy", "1.18"); ("Keras", "2.4"); ("TensorFlow", "2.3.4")]
    = before ++ ("TensorFlow", "2.3.4") :: after /\
    In ("Keras", "2.4") before.
Proof.
  refine (report_dependencies_first 4 "tensorflow==2.3.4" ["six"]
            FindPythonDeps.sample_tree
            [("numpy", "1.18"); ("Keras", "2.4"); ("TensorFlow", "2.3.4")]
            [("Keras", "2.4"); ("TensorFlow", "2.3.4"); ("numpy", "1.18")]
            (FindPythonDeps.entry_of "TensorFlow" "tensorflow" "2.3.4"
               ["numpy"; "six"; "Keras"])
            (FindPythonDeps.entry_of "Keras" "keras" "2.4" ["numpy"; "six"])
            "Keras" _ _ _ _ _ _ _ _).
  - vm_compute. reflexivity.
  - intros e1 e2 H1 H2.
    destruct H1 as [<- | [<- | [<- | [<- | []]]]];
      destruct H2 as [<- | [<- | [<- | [<- | []]]]];
      intros Heq; try reflexivity; discriminate Heq.
  - now left.
  - right. right. now left.
  - right. right. now left.
  - right. right. right. now left.
  - reflexivity.
  - reflexivity.
Defined.

(** X10: the requested package comes last in the install order.  When the
    script reports its lists, the entries of the tree are told apart by the
    package they report and the requested package is not among the
    installed modules, the install order ends with the package of the
    entry that matches the requested name. *)
Theorem report_requested_last (depth : nat) (args_package : string)
    (installed_modules : list string) (dep_tree : list FindPythonDeps.entry)
    (res srt : list FindPythonDeps.pkg) (e : FindPythonDeps.entry) :
  FindPythonDeps.report depth args_package installed_modules dep_tree = inr (res, srt) ->
  (forall e1 e2, In e1 dep_tree -> In e2 dep_tree ->
     FindPythonDeps.reported e1 = FindPythonDeps.reported e2 -> e1 = e2) ->
  In e dep_tree ->
  FindPythonDeps.matches
    (FindPythonDeps.extract_pkg_name args_package args_package) e = true ->
  in_list (fst (FindPythonDeps.reported e)) installed_modules = false ->
  exists before, res = before ++ [FindPythonDeps.reported e].
Proof.
  unfold FindPythonDeps.report.
  destruct (FindPythonDeps.find_deps depth _ dep_tree) as [err|deps] eqn:Hdeps;
    [discriminate|].
  intros [= <- _] Hdistinct He Hm Hkept.
  apply find_deps_resolves in Hdeps.
  destruct (resolves_single_inv dep_tree _ deps Hdeps) as (e0 & sub & Hm0 & Hsub & ->).
  assert (e = e0) as <- by now apply (matching_unique dep_tree _ e0 e Hm0).
  pose proof (resolves_root_once dep_tree Hdistinct _ e sub Hm0 Hsub) as Hfresh.
  rewrite install_order_spec. simpl List.rev.
  rewrite first_occurrences_app, filter_app.
  eexists. f_equal.
  cbn [FindPythonDeps.first_occurrences].
  assert (FindPythonDeps.pkg_in (FindPythonDeps.reported e) (List.rev sub ++ []) = false)
    as ->.
  { apply pkg_in_false. rewrite app_nil_r, <- in_rev. exact Hfresh. }
  cbn [filter]. now rewrite Hkept.
Qed.

Lemma report_requested_last_witness :
  exists before,
    [("numpy", "1.18"); ("Keras", "2.4"); ("TensorFlow", "2.3.4")]
    = before ++ [("TensorFlow", "2.3.4")].
Proof.
  refine (report_requested_last 4 "tensorflow==2.3.4" ["six"]
            FindPythonDeps.sample_tree
            [("numpy", "1.18"); ("Keras", "2.4"); ("TensorFlow", "2.3.4")]
            [("Keras", "2.4"); ("TensorFlow", "2.3.4"); ("numpy", "1.18")]
            (FindPythonDeps.entry_of "TensorFlow" "tensorflow" "2.3.4"
               ["numpy"; "six"; "Keras"])
            _ _ _ _ _).
  - vm_compute. reflexivity.
  - intros e1 e2 H1 H2.
    destruct H1 as [<- | [<- | [<- | [<- | []]]]];
      destruct H2 as [<- | [<- | [<- | [<- | []]]]];
      intros Heq; try reflexivity; discriminate Heq.
  - now left.
  - reflexivity.
  - reflexivity.
Defined.

(** X11: the two lists the script prints hold the same packages: the
    second list is a rearrangement of the install order, in ascending
    order of [(package_name, installed_version)], and neither list repeats
    a package or holds an installed module. *)
Theorem report_lists (depth : nat) (args_package : string)
    (installed_modules : list string) (dep_tree : list FindPythonDeps.entry)
    (res srt : list FindPythonDeps.pkg) :
  FindPythonDeps.report depth args_package installed_modules dep_tree = inr (res, srt) ->
  Permutation res srt /\
  Sorted (fun a b => FindPythonDeps.PkgOrder.leb a b = true) srt /\
  NoDup res /\ NoDup srt /\
  forall x, In x srt -> in_list (fst x) installed_modules = false.
Proof.
  unfold FindPythonDeps.report.
  destruct (FindPythonDeps.find_deps depth _ dep_tree) as [err|deps]; [discriminate|].
  intros [= <- <-].
  pose proof (FindPythonDeps.PkgSort.Permuted_sort
                (FindPythonDeps.install_order installed_modules deps)) as Hperm.
  pose proof (install_order_NoDup installed_modules deps) as Hnodup.
  split; [exact Hperm|]. split; [apply FindPythonDeps.PkgSort.Sorted_sort|].
  split; [exact Hnodup|]. split.
  - exact (Permutation_NoDup Hperm Hnodup).
  - intros x Hx. apply Permutation_sym in Hperm.
    apply (Permutation_in _ Hperm) in Hx.
    now apply install_order_In in Hx.
Qed.

Lemma report_lists_witness :
  Permutation
    [("numpy", "1.18"); ("Keras", "2.4"); ("TensorFlow", "2.3.4")]
    [("Keras", "2.4"); ("TensorFlow", "2.3.4"); ("numpy", "1.18")].
Proof.
  refine (proj1 (report_lists 4 "tensorflow==2.3.4" ["six"]
                   FindPythonDeps.sample_tree _ _ _)).
  vm_compute. reflexivity.
Defined.

(** ** [convert.py] *)

(** X12: after [Patch._from_string] the ['level'] entry is never a string:
    over any inherited dict parser, the ['level'] entry of a returned
    value, when there is one, is an integer. *)
Theorem patch_level_invariant (base : string -> result (dict Py.value))
    (txt : string) (out : dict Py.value) :
  Patch._from_string_over base txt = Ok out ->
  forall v, PyDict.get "level" out = Some v -> exists n, v = Py.Int n.
Proof.
  intros Hout v Hv.
  destruct (base txt) as [e|res] eqn:Hbase.
  - unfold Patch._from_string_over in Hout. rewrite Hbase in Hout. discriminate.
  - destruct (patch_result_shape base txt res Hbase out Hout)
      as [[-> Hm] | (old & new & _ & Hnew & ->)].
    + apply mem_false_get in Hm. congruence.
    + rewrite get_set_same in Hv. injection Hv as <-.
      exact (int_ok_is_Int old new Hnew).
Qed.

Lemma patch_level_invariant_witness : exists n, Py.Int 2 = Py.Int n.
Proof.
  apply (patch_level_invariant (DictOfStrings._from_string Patch.config)
           "a.patch;level:2"
           [("filename", Py.Str "a.patch"); ("level", Py.Int 2)]).
  - vm_compute. reflexivity.
  - reflexivity.
Defined.

(** X13: the exceptions of [Patch._from_string], over any inherited dict
    parser: it raises [e] exactly when the inherited parser raises [e], or
    when [e] is [ValueError] and the inherited parser returns a ['level']
    entry that is a string [int] does not accept: a text that is not white
    space (TAB, LF, VT, FF, CR, space, NEL or NBSP), an optional sign,
    digits [0] to [9] optionally grouped by single underscores, and white
    space, or that has more than 4300 digits; the texts are those of code
    points below 256.  In particular the lookup [res['level']] never
    raises [KeyError]. *)
Theorem patch_errors (base : string -> result (dict Py.value))
    (txt : string) (e : exn) :
  Patch._from_string_over base txt = Raise e <->
  base txt = Raise e \/
  (e = ValueError /\
   exists res s, base txt = Ok res /\
                 PyDict.get "level" res = Some (Py.Str s) /\ ~ int_literal s).
Proof.
  split.
  - intros H. destruct (base txt) as [e'|res] eqn:Hbase.
    + unfold Patch._from_string_over in H. rewrite Hbase in H. now left.
    + right. destruct (PyDict.mem "level" res) eqn:Hm.
      * destruct (mem_true_get _ _ Hm) as (old & Hold).
        rewrite (patch_with_level base txt res Hbase old Hold) in H.
        destruct old as [s|n]; simpl in H; [|discriminate].
        destruct (Py.int_of_str s) as [n|] eqn:Hs; simpl in H; [discriminate|].
        injection H as <-. split; [reflexivity|].
        exists res, s. repeat split; auto.
        intros Hlit. apply int_literal_accepted in Hlit as (n & Hn). congruence.
      * rewrite (patch_without_level base txt res Hbase Hm) in H. discriminate.
  - intros [H | (-> & res & s & Hbase & Hlevel & Hnot)].
    + unfold Patch._from_string_over. now rewrite H.
    + rewrite (patch_with_level base txt res Hbase _ Hlevel). simpl.
      now rewrite (not_int_literal s Hnot).
Qed.

(** X14: the exceptions of [Dependency._from_string], with the external
    version-operator constructors as parameters: [ValueError] for no or
    more than two segments; otherwise the exception of the version-operator
    constructor on the first segment; otherwise, with two segments, the
    exception of the toolchain version-operator constructor on the second.
    No other exception is raised. *)
Theorem dependency_errors
    (VT TT : Type) (VersionOperator : string -> result VT)
    (ToolchainVersionOperator : string -> result TT) (txt : string) (e : exn) :
  let parse := Dependency._from_string VT TT VersionOperator ToolchainVersionOperator in
  let items := Convert._split_string txt Dependency.SEPARATOR_DEP in
  parse txt = Raise e <->
  (e = ValueError /\ (length items = 0%nat \/ (2 < length items)%nat)) \/
  ((length items = 1%nat \/ length items = 2%nat) /\
   VersionOperator (nth 0 items "") = Raise e) \/
  (length items = 2%nat /\
   (exists v, VersionOperator (nth 0 items "") = Ok v) /\
   ToolchainVersionOperator (nth 1 items "") = Raise e).
Proof.
  intros parse items. unfold parse, Dependency._from_string. fold items.
  destruct items as [|a [|b [|c l]]]; simpl.
  - split.
    + intros [= <-]. left. auto.
    + intros [[-> _] | [[[H | H] _] | [H _]]]; [reflexivity | discriminate ..].
  - destruct (VersionOperator a) as [e'|v]; simpl.
    + split.
      * intros [= <-]. right. left. auto.
      * intros [[_ [H | H]] | [[_ H] | [H _]]];
          [discriminate | lia | (injection H as ->; reflexivity) | discriminate].
    + split; [discriminate|].
      intros [[_ [H | H]] | [[_ H] | [H _]]]; [discriminate | lia | discriminate ..].
  - destruct (VersionOperator a) as [e'|v]; simpl.
    + split.
      * intros [= <-]. right. left. auto.
      * intros [[_ [H | H]] | [[_ H] | (_ & (v & Hv) & _)]];
          [discriminate | lia | (injection H as ->; reflexivity) | discriminate].
    + destruct (ToolchainVersionOperator b) as [e'|t]; simpl.
      * split.
        -- intros [= <-]. right. right. eauto.
        -- intros [[_ [H | H]] | [[_ H] | (_ & _ & H)]];
             [discriminate | lia | discriminate | (injection H as ->; reflexivity)].
      * split; [discriminate|].
        intros [[_ [H | H]] | [[_ H] | (_ & _ & H)]];
          [discriminate | lia | discriminate ..].
  - split.
    + intros [= <-]. left. split; [reflexivity | right; lia].
    + intros [[-> _] | [[[H | H] _] | [H _]]]; [reflexivity | discriminate ..].
Qed.

(** X15: [Dependency.__str__] fails only with [KeyError], exactly when
    ['versop'] is missing; on every value [Dependency._from_string]
    returns it succeeds, with the string forms of the operators of the
    value, in order, joined by [";"]. *)
Theorem dependency_str_outcomes
    (VT TT : Type) (VersionOperator : string -> result VT)
    (ToolchainVersionOperator : string -> result TT)
    (str_versop : VT -> string) (str_tc_versop : TT -> string) :
  let parse := Dependency._from_string VT TT VersionOperator ToolchainVersionOperator in
  let print := Dependency.__str__ VT TT str_versop str_tc_versop in
  let str := Dependency.str VT TT str_versop str_tc_versop in
  (forall self e, print self = Raise e <->
                  e = KeyError /\ PyDict.mem "versop" self = false) /\
  (forall txt x, parse txt = Ok x ->
     print x = Ok (Py.join ";" (map (fun kv => str (snd kv)) x))).
Proof.
  intros parse print str. split.
  - intros self e. unfold print, Dependency.__str__, PyDict.getitem, PyDict.mem.
    destruct (PyDict.get "versop" self) as [v|]; simpl.
    + destruct (PyDict.get "tc_versop" self); simpl;
        (split; [discriminate | intros [_ H]; discriminate H]).
    + split; [intros [= <-]; auto | intros [-> _]; reflexivity].
  - intros txt x Hx.
    destruct (dependency_shape VT TT VersionOperator ToolchainVersionOperator txt x Hx)
      as [(v & ->) | (v & t & ->)]; reflexivity.
Qed.

(** ** [findPythonDeps.py]: well-formed trees *)

(** X16: [find_deps] returns a list on a well-formed tree: when a rank
    decreases along every dependency (no circular dependencies), the given
    names have a rank below [depth] and every name that is looked up has
    exactly one matching entry, calls that may nest [depth + 1] deep
    return. *)
Theorem find_deps_returns (dep_tree : list FindPythonDeps.entry)
    (rank : string -> nat) (depth : nat) (pkgs : list string) :
  (forall p q, FindPythonDeps.depends_on dep_tree p q -> rank q < rank p) ->
  (forall p, In p pkgs -> rank p < depth) ->
  (forall name, FindPythonDeps.queried dep_tree pkgs name ->
     exists e, FindPythonDeps.matching_entries name dep_tree = [e]) ->
  exists res, FindPythonDeps.find_deps (S depth) pkgs dep_tree = inr res.
Proof.
  intros Hrank Hpkgs Hunique.
  destruct (FindPythonDeps.find_deps (S depth) pkgs dep_tree) as [[msg|]|res] eqn:H.
  - exfalso.
    destruct (find_deps_runtime_error dep_tree (S depth) pkgs msg H)
      as (name & Hq & Hcases).
    destruct (Hunique name Hq) as (e & He). rewrite He in Hcases.
    destruct Hcases as [[_ Hnil] | [_ Hlen]]; [discriminate | simpl in Hlen; lia].
  - exfalso. exact (find_deps_ranked dep_tree rank Hrank depth pkgs Hpkgs H).
  - now exists res.
Qed.

Lemma find_deps_returns_witness :
  exists res,
    FindPythonDeps.find_deps 4 ["tensorflow"] FindPythonDeps.sample_tree = inr res.
Proof.
  assert (Hdeps : forall p q,
            FindPythonDeps.depends_on FindPythonDeps.sample_tree p q ->
            q = "numpy" \/ q = "six" \/ q = "Keras").
  { intros p q (e & He & Hm & Hq).
    apply orb_true_iff in Hm.
    destruct He as [<- | [<- | [<- | [<- | []]]]];
      destruct Hm as [Hm | Hm]; apply String.eqb_eq in Hm; subst p;
      simpl in Hq; intuition (subst; auto). }
  apply (find_deps_returns FindPythonDeps.sample_tree FindPythonDeps.sample_rank 3).
  - intros p q (e & He & Hm & Hq).
    apply orb_true_iff in Hm.
    destruct He as [<- | [<- | [<- | [<- | []]]]];
      destruct Hm as [Hm | Hm]; apply String.eqb_eq in Hm; subst p;
      simpl in Hq; intuition (subst; apply Nat.ltb_lt; vm_compute; reflexivity).
  - intros p [<- | []]. apply Nat.ltb_lt. vm_compute. reflexivity.
  - intros name (root & [<- | []] & Hchain).
    apply clos_rt_rtn1 in Hchain. destruct Hchain as [|y z Hstep _].
    + eexists. vm_compute. reflexivity.
    + apply Hdeps in Hstep. destruct Hstep as [-> | [-> | ->]];
        eexists; vm_compute; reflexivity.
Defined.
